(** * dynamic-ipset: the fetch / parse / validate / atomic-replace pipeline

    A shallow embedding of the core of [dynamic_ipset]:
    - [validator.py]  ([validate_list_name], [validate_cidr], [parse_ip_entry]),
    - [fetcher.py]    ([_split_entries], [_parse_ip_list], [fetch]),
    - [ipset.py]      ([IPSetManager]: [_run], [exists], [create], [destroy],
                       [add_many], [update]),
    - [cli.py]        ([_do_update]),
    together with the parts of the Python runtime the code relies on
    ([str] methods, [re], the [ipaddress] module) and an in-memory model of
    the [ipset] command the manager shells out to.

    Python text is modelled as a list of one-byte characters (code points
    0..255); integers are [Z]; exceptions are values of [exn] carried by
    [result]. *)

From stdpp Require Import base option list gmap.
From Stdlib Require Import ZArith Ascii Lia Sorted.

Set Default Proof Using "Type".
Open Scope Z_scope.

(* ================================================================== *)
(** * Python strings *)
(* ================================================================== *)

Definition str := list ascii.

Inductive str_literal := lit_nil | lit_cons (c : ascii) (s : str_literal).

Fixpoint literal_of_bytes (l : list Byte.byte) : str_literal :=
  match l with
  | [] => lit_nil
  | b :: r => lit_cons (ascii_of_byte b) (literal_of_bytes r)
  end.

Fixpoint bytes_of_literal (l : str_literal) : list Byte.byte :=
  match l with
  | lit_nil => []
  | lit_cons c r => byte_of_ascii c :: bytes_of_literal r
  end.

Declare Scope pystr_scope.
Delimit Scope pystr_scope with py.
#[warnings="-via-type-mismatch,-via-type-remapping"]
String Notation str literal_of_bytes bytes_of_literal
  (via str_literal mapping [[nil] => lit_nil, [cons] => lit_cons]) : pystr_scope.
Open Scope pystr_scope.

Module Py.

Definition code (c : ascii) : Z := Z.of_N (N_of_ascii c).

Definition LF : ascii := "010"%char.
Definition CR : ascii := "013"%char.
Definition TAB : ascii := "009"%char.

(** [str.isspace] on code points below 256: TAB LF VT FF CR, FS GS RS US,
    SPACE, NEL (0x85) and NBSP (0xa0). *)
Definition isspace (c : ascii) : bool :=
  let n := code c in
  ((9 <=? n) && (n <=? 13)) || ((28 <=? n) && (n <=? 32))
  || (n =? 133) || (n =? 160).

(** Line boundaries of [str.splitlines] below 256: LF VT FF CR FS GS RS NEL. *)
Definition islinebreak (c : ascii) : bool :=
  let n := code c in
  ((10 <=? n) && (n <=? 13)) || ((28 <=? n) && (n <=? 30)) || (n =? 133).

Definition isdigit (c : ascii) : bool :=
  let n := code c in (48 <=? n) && (n <=? 57).

Definition islower (c : ascii) : bool :=
  let n := code c in (97 <=? n) && (n <=? 122).

Definition isupper (c : ascii) : bool :=
  let n := code c in (65 <=? n) && (n <=? 90).

(** [c in s] for a one-character [c]. *)
Definition contains (c : ascii) (s : str) : bool := existsb (Ascii.eqb c) s.

Definition str_eqb (a b : str) : bool := bool_decide (a = b).

(** [not s] *)
Definition is_empty (s : str) : bool :=
  match s with [] => true | _ :: _ => false end.

Fixpoint lstrip (s : str) : str :=
  match s with
  | [] => []
  | c :: r => if isspace c then lstrip r else s
  end.

Definition rstrip (s : str) : str := rev (lstrip (rev s)).

(** [s.strip()] *)
Definition strip (s : str) : str := rstrip (lstrip s).

(** [s.split(sep)] for a one-character separator: never empty. *)
Fixpoint split (sep : ascii) (s : str) : list str :=
  match s with
  | [] => [[]]
  | c :: r =>
      if Ascii.eqb c sep then [] :: split sep r
      else match split sep r with
           | f :: fs => (c :: f) :: fs
           | [] => [[c]]
           end
  end.

(** [sep.join(parts)] *)
Fixpoint join (sep : ascii) (parts : list str) : str :=
  match parts with
  | [] => []
  | [p] => p
  | p :: ps => p ++ sep :: join sep ps
  end.

(** [s.partition(sep)]: text before the first [sep], and the text after it
    when [sep] occurs. *)
Fixpoint partition (sep : ascii) (s : str) : str * option str :=
  match s with
  | [] => ([], None)
  | c :: r =>
      if Ascii.eqb c sep then ([], Some r)
      else let '(a, b) := partition sep r in (c :: a, b)
  end.

(** The pieces between line boundaries; CR LF counts once. The last piece
    is the text after the last boundary (possibly empty). *)
Fixpoint line_pieces (after_cr : bool) (s : str) : list str :=
  match s with
  | [] => [[]]
  | c :: r =>
      if after_cr && Ascii.eqb c LF then line_pieces false r
      else if islinebreak c then [] :: line_pieces (Ascii.eqb c CR) r
      else match line_pieces false r with
           | f :: fs => (c :: f) :: fs
           | [] => [[c]]
           end
  end.

(** [s.splitlines()]: a trailing boundary opens no further line. *)
Definition splitlines (s : str) : list str :=
  let ps := line_pieces false s in
  match last ps with
  | Some [] => removelast ps
  | _ => ps
  end.

(** [s.startswith(prefixes)] for a tuple of one-character prefixes. *)
Definition startswith_any (prefixes : list ascii) (s : str) : bool :=
  match s with
  | [] => false
  | c :: _ => existsb (Ascii.eqb c) prefixes
  end.

(** Splitting at maximal runs of separator characters, as [re.split] does
    with a pattern [[...]+]: the text before the first run, between runs,
    and after the last one (each possibly empty at the two ends). *)
Fixpoint split_runs (sep : ascii -> bool) (in_sep : bool) (s : str) : list str :=
  match s with
  | [] => [[]]
  | c :: r =>
      if sep c then
        (if in_sep then split_runs sep true r else [] :: split_runs sep true r)
      else match split_runs sep false r with
           | f :: fs => (c :: f) :: fs
           | [] => [[c]]
           end
  end.

(** [re.split(r"[\s,]+", s)] *)
Definition is_sep (c : ascii) : bool := isspace c || Ascii.eqb c ",".
Definition re_split_seps (s : str) : list str := split_runs is_sep false s.

(** Decimal digits of a non-negative number, most significant first. *)
Definition digit_char (d : Z) : ascii := ascii_of_N (Z.to_N (48 + d)).

Fixpoint digits_fuel (fuel : nat) (n : Z) (acc : str) : str :=
  match fuel with
  | O => acc
  | S f =>
      let acc' := digit_char (n mod 10) :: acc in
      if n <? 10 then acc' else digits_fuel f (n / 10) acc'
  end.

(** [str(n)] for an [int] *)
Definition str_of_int (n : Z) : str :=
  if n <? 0 then "-" ++ digits_fuel (S (Z.to_nat (Z.log2 (- n)))) (- n) []
  else digits_fuel (S (Z.to_nat (Z.log2 n))) n [].

(** [int(s)] for a string already known to hold ASCII digits only. *)
Definition int_of_digits (s : str) : Z :=
  fold_left (fun acc c => 10 * acc + (code c - 48)) s 0.

Definition hex_char (d : Z) : ascii :=
  if d <? 10 then ascii_of_N (Z.to_N (48 + d)) else ascii_of_N (Z.to_N (87 + d)).

Fixpoint hex_fuel (fuel : nat) (n : Z) (acc : str) : str :=
  match fuel with
  | O => acc
  | S f =>
      let acc' := hex_char (n mod 16) :: acc in
      if n <? 16 then acc' else hex_fuel f (n / 16) acc'
  end.

(** ['%x' % n] for [0 <= n] *)
Definition hex (n : Z) : str := hex_fuel (S (Z.to_nat (Z.log2 n))) n [].

Definition ishex (c : ascii) : bool :=
  let n := code c in
  isdigit c || ((97 <=? n) && (n <=? 102)) || ((65 <=? n) && (n <=? 70)).

Definition hex_value (c : ascii) : Z :=
  let n := code c in
  if isdigit c then n - 48 else if 97 <=? n then n - 87 else n - 55.

(** [int(s, 16)] for a string already known to hold hex digits only. *)
Definition int_of_hex (s : str) : Z :=
  fold_left (fun acc c => 16 * acc + hex_value c) s 0.

(** [repr(s)]: quotes, backslash escapes, [\xNN] for what is not printable. *)
Definition isprintable (c : ascii) : bool :=
  let n := code c in
  ((32 <=? n) && (n <? 127)) || ((161 <=? n) && negb (n =? 173)).

Definition hex2 (n : Z) : str := [hex_char (n / 16); hex_char (n mod 16)].

Definition DQUOTE : ascii := "034"%char.

Definition repr_char (quote : ascii) (c : ascii) : str :=
  if Ascii.eqb c quote || Ascii.eqb c "\" then ["\"%char; c]
  else if Ascii.eqb c TAB then "\t"
  else if Ascii.eqb c LF then "\n"
  else if Ascii.eqb c CR then "\r"
  else if isprintable c then [c]
  else "\x" ++ hex2 (code c).

Definition repr (s : str) : str :=
  let quote : ascii :=
    if contains "'" s && negb (contains DQUOTE s) then DQUOTE else "'"%char in
  quote :: concat (map (repr_char quote) s) ++ [quote].




(** [s.startswith(prefix)] *)
Fixpoint startswith (prefix s : str) : bool :=
  match prefix, s with
  | [], _ => true
  | _ :: _, [] => false
  | p :: ps, c :: r => Ascii.eqb c p && startswith ps r
  end.

End Py.

(* ================================================================== *)
(** * exceptions.py *)
(* ================================================================== *)

(** The exception classes of [exceptions.py], each carrying its message
    ([str(e)]). All of them derive from [DynamicIPSetError] and declare no
    field and no subclass of their own. *)
Inductive exn :=
  | ConfigError (msg : str)
  | IPSetError (msg : str)
  | FetchError (msg : str)
  | ValidationError (msg : str)
  | SystemdError (msg : str).

Definition exn_message (e : exn) : str :=
  match e with
  | ConfigError m | IPSetError m | FetchError m
  | ValidationError m | SystemdError m => m
  end.

(** The class of an exception value: what an [except] clause or [type(e)]
    can tell apart. *)
Inductive exn_class :=
  | ConfigError_cls | IPSetError_cls | FetchError_cls
  | ValidationError_cls | SystemdError_cls.

Definition class_of (e : exn) : exn_class :=
  match e with
  | ConfigError _ => ConfigError_cls
  | IPSetError _ => IPSetError_cls
  | FetchError _ => FetchError_cls
  | ValidationError _ => ValidationError_cls
  | SystemdError _ => SystemdError_cls
  end.

Inductive result (A : Type) :=
  | Ok (a : A)
  | Raise (e : exn).
Arguments Ok {A} a.
Arguments Raise {A} e.

(* ================================================================== *)
(** * The [ipaddress] module of the Python standard library

    The functions [validate_cidr] calls, written after CPython 3.11's
    [Lib/ipaddress.py]. [None] stands for [AddressValueError] or
    [NetmaskValueError], which [ip_address] and [ip_network] catch. *)
(* ================================================================== *)

Module ipaddress.
Import Py.

Inductive address :=
  | IPv4Address (ip : Z)
  | IPv6Address (ip : Z) (scope_id : option str).

Record network := Network {
  network_address : address;
  prefixlen : Z
}.

Definition version (a : address) : Z :=
  match a with IPv4Address _ => 4 | IPv6Address _ _ => 6 end.

Definition int_of (a : address) : Z :=
  match a with IPv4Address ip => ip | IPv6Address ip _ => ip end.

(** What a call returns or the plain [ValueError] it raises. *)
Inductive outcome (A : Type) :=
  | Value (a : A)
  | ValueError (msg : str).
Arguments Value {A} a.
Arguments ValueError {A} msg.

(** [n.bit_length()] for [0 <= n] *)
Definition bit_length (n : Z) : Z := if n =? 0 then 0 else Z.log2 n + 1.

Definition _count_righthand_zero_bits (number bits : Z) : Z :=
  if number =? 0 then bits
  else Z.min bits (bit_length (Z.land (Z.lnot number) (number - 1))).

(** [s.isascii() and s.isdigit()] *)
Definition ascii_digits (s : str) : bool := negb (is_empty s) && forallb isdigit s.

(** ** [_IPAddressBase], by the class attribute [_max_prefixlen] *)
Section Base.
Variable _max_prefixlen : Z.

Definition _ALL_ONES : Z := 2 ^ _max_prefixlen - 1.

Definition _ip_int_from_prefix (prefixlen : Z) : Z :=
  Z.lxor _ALL_ONES (Z.shiftr _ALL_ONES prefixlen).

Definition _prefix_from_ip_int (ip_int : Z) : option Z :=
  let trailing_zeroes := _count_righthand_zero_bits ip_int _max_prefixlen in
  let prefixlen := _max_prefixlen - trailing_zeroes in
  let leading_ones := Z.shiftr ip_int trailing_zeroes in
  let all_ones := Z.shiftl 1 prefixlen - 1 in
  if negb (leading_ones =? all_ones) then None else Some prefixlen.

Definition _prefix_from_prefix_string (prefixlen_str : str) : option Z :=
  if negb (ascii_digits prefixlen_str) then None
  else
    let prefixlen := int_of_digits prefixlen_str in
    if negb ((0 <=? prefixlen) && (prefixlen <=? _max_prefixlen)) then None
    else Some prefixlen.

(** [_prefix_from_ip_string], given the class's [_ip_int_from_string] *)
Definition _prefix_from_ip_string
    (_ip_int_from_string : str -> option Z) (ip_str : str) : option Z :=
  match _ip_int_from_string ip_str with
  | None => None
  | Some ip_int =>
      match _prefix_from_ip_int ip_int with
      | Some p => Some p
      | None => _prefix_from_ip_int (Z.lxor ip_int _ALL_ONES)
      end
  end.
End Base.

(** The mask argument of [_make_netmask]: an [int] or a [str]. *)
Inductive mask_arg := MaskInt (n : Z) | MaskStr (s : str).

(** [_split_addr_prefix] on a string: [None] when there are two slashes. *)
Definition _split_addr_prefix (_max_prefixlen : Z) (address : str)
    : option (str * mask_arg) :=
  match split "/" address with
  | [addr] => Some (addr, MaskInt _max_prefixlen)
  | [addr; mask] => Some (addr, MaskStr mask)
  | _ => None
  end.

(** [int.from_bytes(bs, 'big')], also used with 16-bit groups. *)
Definition from_groups (width : Z) (acc : Z) (groups : list Z) : Z :=
  fold_left (fun a g => Z.lor (Z.shiftl a width) g) groups acc.

(** The [count] groups of [width] bits of [n], most significant first. *)
Definition to_groups (width : Z) (count : nat) (n : Z) : list Z :=
  map (fun i => Z.land (Z.shiftr n (width * Z.of_nat i)) (2 ^ width - 1))
      (rev (seq 0 count)).

(** ** [_BaseV4], [IPv4Address], [IPv4Network] *)
Module V4.
Definition _max_prefixlen : Z := 32.

Definition _parse_octet (octet_str : str) : option Z :=
  if is_empty octet_str then None
  else if negb (ascii_digits octet_str) then None
  else if (3 <? length octet_str)%nat then None
  else if negb (str_eqb octet_str "0") && str_eqb (take 1 octet_str) "0" then None
  else
    let octet_int := int_of_digits octet_str in
    if 255 <? octet_int then None else Some octet_int.

Definition _ip_int_from_string (ip_str : str) : option Z :=
  if is_empty ip_str then None
  else
    let octets := split "." ip_str in
    if negb (length octets =? 4)%nat then None
    else from_groups 8 0 <$> mapM _parse_octet octets.

Definition _string_from_ip_int (ip_int : Z) : str :=
  join "." (map str_of_int (to_groups 8 4 ip_int)).

(** [IPv4Address(address)] for a string *)
Definition of_string (address : str) : option Z :=
  if contains "/" address then None else _ip_int_from_string address.

Definition _make_netmask (arg : mask_arg) : option (Z * Z) :=
  match
    match arg with
    | MaskInt prefixlen =>
        if negb ((0 <=? prefixlen) && (prefixlen <=? _max_prefixlen)) then None
        else Some prefixlen
    | MaskStr s =>
        match _prefix_from_prefix_string _max_prefixlen s with
        | Some p => Some p
        | None => _prefix_from_ip_string _max_prefixlen _ip_int_from_string s
        end
    end
  with
  | None => None
  | Some prefixlen => Some (_ip_int_from_prefix _max_prefixlen prefixlen, prefixlen)
  end.
End V4.

(** ** [_BaseV6], [IPv6Address], [IPv6Network] *)
Module V6.
Definition _max_prefixlen : Z := 128.
Definition _HEXTET_COUNT : nat := 8.

Definition _parse_hextet (hextet_str : str) : option Z :=
  if negb (forallb ishex hextet_str) then None
  else if (4 <? length hextet_str)%nat then None
  else if is_empty hextet_str then None
  else Some (int_of_hex hextet_str).

(** The loop over [range(1, len(parts) - 1)] looking for the one empty
    part: [None] when a second one is met. *)
Fixpoint find_skip (i : nat) (inner : list str) (skip_index : option nat)
    : option (option nat) :=
  match inner with
  | [] => Some skip_index
  | p :: r =>
      if is_empty p then
        match skip_index with
        | Some _ => None
        | None => find_skip (S i) r (Some i)
        end
      else find_skip (S i) r skip_index
  end.

(** [ip_int <<= 16; ip_int |= _parse_hextet(part)] over [parts] *)
Fixpoint parse_hextets (ip_int : Z) (parts : list str) : option Z :=
  match parts with
  | [] => Some ip_int
  | p :: r =>
      match _parse_hextet p with
      | None => None
      | Some h => parse_hextets (Z.lor (Z.shiftl ip_int 16) h) r
      end
  end.

Definition last_part (parts : list str) : str := default [] (last parts).
Definition first_part (parts : list str) : str := default [] (head parts).

(** [_ip_int_from_string] once the text is split at the colons *)
Definition ip_int_from_parts (parts : list str) : option Z :=
  if (length parts <? 3)%nat then None
  else
    match
      (if contains "." (last_part parts) then
         match V4.of_string (last_part parts) with
         | None => None
         | Some ipv4_int =>
             Some (removelast parts
                   ++ [hex (Z.land (Z.shiftr ipv4_int 16) 65535);
                       hex (Z.land ipv4_int 65535)])
         end
       else Some parts)
    with
    | None => None
    | Some parts =>
        if (_HEXTET_COUNT + 1 <? length parts)%nat then None
        else
          match find_skip 1 (tail (removelast parts)) None with
          | None => None
          | Some (Some skip_index) =>
              let parts_hi := skip_index in
              let parts_lo := (length parts - skip_index - 1)%nat in
              let parts_hi' :=
                if is_empty (first_part parts) then (parts_hi - 1)%nat else parts_hi in
              if is_empty (first_part parts) && negb (parts_hi' =? 0)%nat then None
              else
                let parts_lo' :=
                  if is_empty (last_part parts) then (parts_lo - 1)%nat else parts_lo in
                if is_empty (last_part parts) && negb (parts_lo' =? 0)%nat then None
                else if (_HEXTET_COUNT <=? parts_hi' + parts_lo')%nat then None
                else
                  let parts_skipped := (_HEXTET_COUNT - (parts_hi' + parts_lo'))%nat in
                  match parse_hextets 0 (take parts_hi' parts) with
                  | None => None
                  | Some ip_int =>
                      parse_hextets
                        (Z.shiftl ip_int (16 * Z.of_nat parts_skipped))
                        (drop (length parts - parts_lo') parts)
                  end
          | Some None =>
              if negb (length parts =? _HEXTET_COUNT)%nat then None
              else if is_empty (first_part parts) then None
              else if is_empty (last_part parts) then None
              else parse_hextets 0 parts
          end
    end.

Definition _ip_int_from_string (ip_str : str) : option Z :=
  if is_empty ip_str then None else ip_int_from_parts (split ":" ip_str).

(** The state of the scan in [_compress_hextets]:
    [(best_doublecolon_start, best_doublecolon_len,
      doublecolon_start, doublecolon_len)]. *)
Definition compress_step (st : Z * Z * Z * Z) (index : Z) (hextet : str)
    : Z * Z * Z * Z :=
  let '(best_start, best_len, start, len) := st in
  if str_eqb hextet "0" then
    let len := len + 1 in
    let start := if start =? -1 then index else start in
    if best_len <? len then (start, len, start, len)
    else (best_start, best_len, start, len)
  else (best_start, best_len, -1, 0).

Fixpoint compress_scan (index : Z) (hextets : list str) (st : Z * Z * Z * Z)
    : Z * Z * Z * Z :=
  match hextets with
  | [] => st
  | h :: r => compress_scan (index + 1) r (compress_step st index h)
  end.

Definition _compress_hextets (hextets : list str) : list str :=
  let '(best_start, best_len, _, _) := compress_scan 0 hextets (-1, 0, -1, 0) in
  if 1 <? best_len then
    let best_end := best_start + best_len in
    let hextets1 :=
      if best_end =? Z.of_nat (length hextets) then hextets ++ [""] else hextets in
    let hextets2 :=
      take (Z.to_nat best_start) hextets1 ++ [""] ++ drop (Z.to_nat best_end) hextets1 in
    if best_start =? 0 then "" :: hextets2 else hextets2
  else hextets.

Definition _string_from_ip_int (ip_int : Z) : str :=
  join ":" (_compress_hextets (map hex (to_groups 16 8 ip_int))).

(** [_split_scope_id] *)
Definition _split_scope_id (ip_str : str) : option (str * option str) :=
  match partition "%" ip_str with
  | (addr, None) => Some (addr, None)
  | (addr, Some scope_id) =>
      if is_empty scope_id || contains "%" scope_id then None
      else Some (addr, Some scope_id)
  end.

(** [IPv6Address(address)] for a string *)
Definition of_string (address : str) : option (Z * option str) :=
  if contains "/" address then None
  else
    match _split_scope_id address with
    | None => None
    | Some (addr_str, scope_id) =>
        match _ip_int_from_string addr_str with
        | None => None
        | Some ip => Some (ip, scope_id)
        end
    end.

Definition _make_netmask (arg : mask_arg) : option (Z * Z) :=
  match
    match arg with
    | MaskInt prefixlen =>
        if negb ((0 <=? prefixlen) && (prefixlen <=? _max_prefixlen)) then None
        else Some prefixlen
    | MaskStr s => _prefix_from_prefix_string _max_prefixlen s
    end
  with
  | None => None
  | Some prefixlen => Some (_ip_int_from_prefix _max_prefixlen prefixlen, prefixlen)
  end.
End V6.

(** [str(address)] *)
Definition to_str (a : address) : str :=
  match a with
  | IPv4Address ip => V4._string_from_ip_int ip
  | IPv6Address ip scope_id =>
      let ip_str := V6._string_from_ip_int ip in
      match scope_id with
      | Some s => if is_empty s then ip_str else ip_str ++ "%" ++ s
      | None => ip_str
      end
  end.

(** What a network constructor does: builds the object, raises one of the
    two errors its callers catch, or (strict only) the plain [ValueError]
    for host bits. *)
Inductive built (A : Type) :=
  | Built (a : A)
  | AddressOrNetmaskError
  | HostBitsSet (msg : str).
Arguments Built {A} a.
Arguments AddressOrNetmaskError {A}.
Arguments HostBitsSet {A} msg.

Definition host_bits_message (a : address) (prefixlen : Z) : str :=
  to_str a ++ "/" ++ str_of_int prefixlen ++ " has host bits set".

Definition IPv4Network (address : str) (strict : bool) : built network :=
  match _split_addr_prefix V4._max_prefixlen address with
  | None => AddressOrNetmaskError
  | Some (addr, mask) =>
      match V4.of_string addr with
      | None => AddressOrNetmaskError
      | Some packed =>
          match V4._make_netmask mask with
          | None => AddressOrNetmaskError
          | Some (netmask, prefixlen) =>
              if negb (Z.land packed netmask =? packed) then
                if strict then HostBitsSet (host_bits_message (IPv4Address packed) prefixlen)
                else Built (Network (IPv4Address (Z.land packed netmask)) prefixlen)
              else Built (Network (IPv4Address packed) prefixlen)
          end
      end
  end.

Definition IPv6Network (address : str) (strict : bool) : built network :=
  match _split_addr_prefix V6._max_prefixlen address with
  | None => AddressOrNetmaskError
  | Some (addr, mask) =>
      match V6.of_string addr with
      | None => AddressOrNetmaskError
      | Some (packed, scope_id) =>
          match V6._make_netmask mask with
          | None => AddressOrNetmaskError
          | Some (netmask, prefixlen) =>
              if negb (Z.land packed netmask =? packed) then
                if strict then
                  HostBitsSet (host_bits_message (IPv6Address packed scope_id) prefixlen)
                else Built (Network (IPv6Address (Z.land packed netmask) None) prefixlen)
              else Built (Network (IPv6Address packed scope_id) prefixlen)
          end
      end
  end.

Definition ip_address (address : str) : outcome ipaddress.address :=
  match V4.of_string address with
  | Some ip => Value (IPv4Address ip)
  | None =>
      match V6.of_string address with
      | Some (ip, scope_id) => Value (IPv6Address ip scope_id)
      | None =>
          ValueError (repr address ++ " does not appear to be an IPv4 or IPv6 address")
      end
  end.

Definition ip_network (address : str) (strict : bool) : outcome network :=
  match IPv4Network address strict with
  | Built n => Value n
  | HostBitsSet msg => ValueError msg
  | AddressOrNetmaskError =>
      match IPv6Network address strict with
      | Built n => Value n
      | HostBitsSet msg => ValueError msg
      | AddressOrNetmaskError =>
          ValueError (repr address ++ " does not appear to be an IPv4 or IPv6 network")
      end
  end.

End ipaddress.

(* ================================================================== *)
(** * constants.py *)
(* ================================================================== *)

Module constants.
Definition DEFAULT_IPSET_TYPE : str := "hash:net".
Definition DEFAULT_IPSET_FAMILY : str := "inet".
Definition DEFAULT_TIMEOUT : Z := 30.
Definition DEFAULT_MAX_ENTRIES : Z := 65536.

(** [COMMENT_CHARS = ("#", ";")] *)
Definition COMMENT_CHARS : list ascii := ["#"%char; ";"%char].

(** ** [LIST_NAME_PATTERN = r"^[a-zA-Z][a-zA-Z0-9_-]{0,30}$"]

    The pattern as [re.match] reads it: a character class repeated between
    [lo] and [hi] times, followed by the rest of the pattern, and [$],
    which in Python matches at the end of the text and also just before a
    line feed that ends the text. *)
Fixpoint re_repeat (cls : ascii -> bool) (lo hi : nat) (rest : str -> bool)
    (s : str) : bool :=
  match hi with
  | O => (lo =? 0)%nat && rest s
  | S hi' =>
      ((lo =? 0)%nat && rest s)
      || match s with
         | c :: r => cls c && re_repeat cls (pred lo) hi' rest r
         | [] => false
         end
  end.

Definition re_dollar (s : str) : bool :=
  match s with
  | [] => true
  | [c] => Ascii.eqb c Py.LF
  | _ => false
  end.

(** [[a-zA-Z]] and [[a-zA-Z0-9_-]] *)
Definition cls_letter (c : ascii) : bool := Py.islower c || Py.isupper c.
Definition cls_name_char (c : ascii) : bool :=
  Py.islower c || Py.isupper c || Py.isdigit c || Ascii.eqb c "_" || Ascii.eqb c "-".

(** [re.match(LIST_NAME_PATTERN, name)] is not [None] *)
Definition LIST_NAME_PATTERN_match (name : str) : bool :=
  re_repeat cls_letter 1 1 (re_repeat cls_name_char 0 30 re_dollar) name.
End constants.

(* ================================================================== *)
(** * validator.py *)
(* ================================================================== *)

Module validator.
Import Py constants.

Definition validate_list_name (name : str) : result bool :=
  if is_empty name then Raise (ValidationError "List name cannot be empty")
  else if negb (LIST_NAME_PATTERN_match name) then
    Raise (ValidationError
             ("Invalid list name '" ++ name ++ "'. Must start with letter, "
              ++ "contain only alphanumeric/underscore/hyphen, max 31 chars."))
  else Ok true.

Definition validate_cidr (cidr : str) : result (str * Z * str) :=
  let cidr := strip cidr in
  if negb (contains "/" cidr) then
    match ipaddress.ip_address cidr with
    | ipaddress.Value addr =>
        if ipaddress.version addr =? 4 then Ok (ipaddress.to_str addr, 32, "inet")
        else Ok (ipaddress.to_str addr, 128, "inet6")
    | ipaddress.ValueError _ =>
        Raise (ValidationError ("Invalid IP address: " ++ cidr))
    end
  else
    match ipaddress.ip_network cidr false with
    | ipaddress.Value network =>
        let family : str :=
          if ipaddress.version (ipaddress.network_address network) =? 4
          then "inet" else "inet6" in
        Ok (ipaddress.to_str (ipaddress.network_address network),
            ipaddress.prefixlen network, family)
    | ipaddress.ValueError e =>
        Raise (ValidationError ("Invalid CIDR: " ++ cidr ++ " - " ++ e))
    end.

(** One round of the loop [for comment_char in ("#", ";")] *)
Definition cut_comment (entry : str) (comment_char : ascii) : str :=
  if contains comment_char entry
  then strip (default [] (head (split comment_char entry)))
  else entry.

(** [f"{network_addr}/{prefix}"] *)
Definition cidr_format (network_addr : str) (prefix : Z) : str :=
  network_addr ++ "/" ++ str_of_int prefix.

Definition parse_ip_entry (entry : str) : result (str * str) :=
  let entry := strip entry in
  let entry := fold_left cut_comment ["#"%char; ";"%char] entry in
  if is_empty entry then Raise (ValidationError "Empty entry")
  else
    match validate_cidr entry with
    | Raise e => Raise e
    | Ok (network_addr, prefix, family) =>
        Ok (cidr_format network_addr prefix, family)
    end.

Definition validate_ipv6 (ip : str) : bool :=
  match ipaddress.ip_address ip with
  | ipaddress.Value addr => ipaddress.version addr =? 6
  | ipaddress.ValueError _ => false
  end.





End validator.

(* ================================================================== *)
(** * fetcher.py *)
(* ================================================================== *)

Module fetcher.
Import Py constants validator.

Definition _split_entries (line : str) : list str :=
  let line := fold_left cut_comment COMMENT_CHARS line in
  if is_empty line then []
  else if contains " " line || contains "," line || contains TAB line then
    let parts := re_split_seps line in
    map strip (List.filter (fun p => negb (is_empty (strip p))) parts)
  else [line].

(** [f"Line {line_num}: {e}"] *)
Definition line_error (line_num : nat) (e : exn) : str :=
  "Line " ++ str_of_int (Z.of_nat line_num) ++ ": " ++ exn_message e.

(** The body of [for part in parts], on the two lists being built. An
    exception other than [ValidationError] is not caught there. *)
Definition parse_part (line_num : nat) (acc : result (list str * list str))
    (part : str) : result (list str * list str) :=
  match acc with
  | Raise e => Raise e
  | Ok (entries, errors) =>
      if is_empty part then Ok (entries, errors)
      else
        match parse_ip_entry part with
        | Ok (entry, family) => Ok (entries ++ [entry], errors)
        | Raise (ValidationError msg) =>
            Ok (entries, errors ++ [line_error line_num (ValidationError msg)])
        | Raise e => Raise e
        end
  end.

(** The body of [for line_num, line in enumerate(content.splitlines(), 1)] *)
Definition parse_line (acc : result (list str * list str))
    (numbered : nat * str) : result (list str * list str) :=
  let '(line_num, line) := numbered in
  let line := strip line in
  if is_empty line then acc
  else if startswith_any COMMENT_CHARS line then acc
  else fold_left (parse_part line_num) (_split_entries line) acc.

(** [enumerate(xs, start)] *)
Fixpoint enumerate {A} (start : nat) (xs : list A) : list (nat * A) :=
  match xs with
  | [] => []
  | x :: r => (start, x) :: enumerate (S start) r
  end.

Definition _parse_ip_list (content : str) : result (list str * list str) :=
  fold_left parse_line (enumerate 1 (splitlines content)) (Ok ([], [])).

(** What [urlopen(...)] followed by [response.read().decode(...)] does:
    the text of the body, or one of the exceptions [fetch] tells apart. *)
Inductive transport :=
  | Body (content : str)
  | HTTPError (code : Z)
  | URLError (reason : str)
  | TimeoutError
  | OtherError (text : str).

Definition fetch (url : str) (t : transport) : result (list str * list str) :=
  match t with
  | Body content =>
      match _parse_ip_list content with
      | Ok r => Ok r
      | Raise e =>
          Raise (FetchError ("Failed to fetch " ++ url ++ ": " ++ exn_message e))
      end
  | HTTPError code =>
      Raise (FetchError ("HTTP error " ++ str_of_int code ++ ": " ++ url))
  | URLError reason =>
      Raise (FetchError ("URL error: " ++ reason ++ " - " ++ url))
  | TimeoutError =>
      Raise (FetchError ("Timeout fetching " ++ url))
  | OtherError text =>
      Raise (FetchError ("Failed to fetch " ++ url ++ ": " ++ text))
  end.


End fetcher.

(* ================================================================== *)
(** * The [ipset] command

    [IPSetManager._run] hands a command line (and, for [restore], a text on
    standard input) to the [ipset] program. The program is modelled by its
    effect on the table of kernel sets, for the subcommands the manager
    issues. A set has a type, a family, a capacity and its members. *)
(* ================================================================== *)

Module kernel.
Import Py.

Record ipset_rec := IPSet {
  set_type : str;
  set_family : str;
  maxelem : Z;
  members : list str
}.

Abbreviation table := (gmap str ipset_rec).

Record CompletedProcess := Completed {
  returncode : Z;
  stdout : str;
  stderr : str
}.

Definition succeeded (out : str) : CompletedProcess := Completed 0 out "".
Definition failed (err : str) : CompletedProcess := Completed 1 "" err.

Definition isblank (c : ascii) : bool := Ascii.eqb c " " || Ascii.eqb c TAB.

(** The words of a line, separated by blanks. *)
Definition words (line : str) : list str :=
  List.filter (fun w => negb (is_empty w)) (split_runs isblank false line).

(** [add NAME ENTRY -exist]: the set must exist; an entry already present
    is accepted; a full set refuses a new entry. *)
Definition add_entry (name entry : str) (k : table) : option table :=
  match k !! name with
  | None => None
  | Some r =>
      if bool_decide (entry ∈ members r) then Some k
      else if maxelem r <=? Z.of_nat (length (members r)) then None
      else Some (<[name := IPSet (set_type r) (set_family r) (maxelem r)
                                 (members r ++ [entry])]> k)
  end.

(** [restore]: the directives are run line by line; the first one that
    fails stops the run, and what the earlier ones did stays. *)
Fixpoint restore (lines : list str) (k : table) : CompletedProcess * table :=
  match lines with
  | [] => (succeeded "", k)
  | line :: rest =>
      match words line with
      | [] => restore rest k
      | [cmd; name; entry; flag] =>
          if str_eqb cmd "add" && str_eqb flag "-exist" then
            match add_entry name entry k with
            | Some k' => restore rest k'
            | None => (failed "ipset: Error in line: cannot add the element", k)
            end
          else (failed "ipset: Error in line: unknown directive", k)
      | _ => (failed "ipset: Error in line: syntax error", k)
      end
  end.

Definition cmd_list_name (name : str) (k : table) : CompletedProcess * table :=
  match k !! name with
  | Some _ => (succeeded (name ++ [LF]), k)
  | None => (failed "ipset: The set with the given name does not exist", k)
  end.

Definition cmd_create (name type family n : str) (k : table)
    : CompletedProcess * table :=
  match k !! name with
  | Some _ =>
      (failed "ipset: Set cannot be created: set with the same name already exists", k)
  | None =>
      if ipaddress.ascii_digits n
      then (succeeded "", <[name := IPSet type family (int_of_digits n) []]> k)
      else (failed "ipset: Syntax error: maxelem must be a number", k)
  end.

Definition cmd_destroy (name : str) (k : table) : CompletedProcess * table :=
  match k !! name with
  | Some _ => (succeeded "", delete name k)
  | None => (failed "ipset: The set with the given name does not exist", k)
  end.

(** [swap FROM TO]: both sets exist and have the same type and family;
    they exchange everything but their names. *)
Definition cmd_swap (a b : str) (k : table) : CompletedProcess * table :=
  match k !! a, k !! b with
  | Some ra, Some rb =>
      if str_eqb (set_type ra) (set_type rb) && str_eqb (set_family ra) (set_family rb)
      then (succeeded "", <[b := ra]> (<[a := rb]> k))
      else (failed "ipset: The sets cannot be swapped: their type does not match", k)
  | _, _ => (failed "ipset: The set with the given name does not exist", k)
  end.

(** The program, by its arguments and its standard input. *)
Definition main (args : list str) (input : option str) (k : table)
    : CompletedProcess * table :=
  match args with
  | [sub] =>
      if str_eqb sub "restore" then restore (split LF (default [] input)) k
      else (failed "ipset: unsupported command", k)
  | [sub; name] =>
      if str_eqb sub "destroy" then cmd_destroy name k
      else (failed "ipset: unsupported command", k)
  | [sub; a; b] =>
      if str_eqb sub "list" && str_eqb b "-n" then cmd_list_name a k
      else if str_eqb sub "swap" then cmd_swap a b k
      else (failed "ipset: unsupported command", k)
  | [sub; name; type; kw1; family; kw2; n] =>
      if str_eqb sub "create" && str_eqb kw1 "family" && str_eqb kw2 "maxelem"
      then cmd_create name type family n k
      else (failed "ipset: unsupported command", k)
  | _ => (failed "ipset: unsupported command", k)
  end.

(** How running the program can go wrong from outside: it exits with an
    error without having done anything, it is not found, or it cannot be
    started. *)
Inductive fault :=
  | NoFault
  | ExitFail (err : str)
  | NotFound
  | SpawnError (text : str).
End kernel.

(* ================================================================== *)
(** * ipset.py *)
(* ================================================================== *)

Module ipset.
Import Py constants validator kernel.

(** The world the manager acts on: the kernel's sets and the command
    lines run so far (each with its standard input). *)
Record world := World {
  sets : table;
  calls : list (list str * option str)
}.

(** A method of the manager: from a world to what it returns or raises,
    and the world it leaves. *)
Definition M (A : Type) : Type := world -> result A * world.

Definition ret {A} (a : A) : M A := fun w => (Ok a, w).
Definition raise {A} (e : exn) : M A := fun w => (Raise e, w).
Definition bind {A B} (m : M A) (f : A -> M B) : M B :=
  fun w => match m w with
           | (Ok a, w') => f a w'
           | (Raise e, w') => (Raise e, w')
           end.
Definition lift {A} (r : result A) : M A := fun w => (r, w).

(** [try: m  except Exception as e: h e] *)
Definition try_except {A} (m : M A) (h : exn -> M A) : M A :=
  fun w => match m w with
           | (Ok a, w') => (Ok a, w')
           | (Raise e, w') => h e w'
           end.

(** [try: m  except IPSetError: pass] *)
Definition pass_IPSetError (m : M unit) : M unit :=
  fun w => match m w with
           | (Raise (IPSetError _), w') => (Ok tt, w')
           | other => other
           end.

Notation "x <- m ;; f" := (bind m (fun x => f))
  (at level 100, m at next level, right associativity).
Notation "m ;;; f" := (bind m (fun _ => f))
  (at level 100, right associativity).

Section IPSetManager.
(** [self.ipset_cmd], and for the n-th command run whether something
    goes wrong with it from outside. *)
Variable ipset_cmd : str.
Variable faults : nat -> fault.

Definition _run (args : list str) (check : bool) (input_data : option str)
    : M CompletedProcess :=
  fun w =>
    let cmd := ipset_cmd :: args in
    let logged := calls w ++ [(cmd, input_data)] in
    match faults (length (calls w)) with
    | NotFound =>
        (Raise (IPSetError ("ipset command not found: " ++ ipset_cmd)),
         World (sets w) logged)
    | SpawnError text =>
        (Raise (IPSetError ("Failed to run ipset: " ++ text)),
         World (sets w) logged)
    | f =>
        let '(result, k) :=
          match f with
          | ExitFail err => (failed err, sets w)
          | _ => main args input_data (sets w)
          end in
        if check && negb (returncode result =? 0) then
          (Raise (IPSetError ("ipset command failed: " ++ strip (stderr result))),
           World k logged)
        else (Ok result, World k logged)
    end.

Definition exists_ (name : str) : M bool :=
  result <- _run ["list"; name; "-n"] false None ;;
  ret (returncode result =? 0).

Definition create (name ipset_type family : str) (max_entries : Z) : M bool :=
  lift (validate_list_name name) ;;;
  present <- exists_ name ;;
  if present then ret false
  else
    _run ["create"; name; ipset_type; "family"; family; "maxelem";
          str_of_int max_entries] true None ;;;
    ret true.

Definition destroy (name : str) : M bool :=
  lift (validate_list_name name) ;;;
  present <- exists_ name ;;
  if negb present then ret false
  else
    _run ["destroy"; name] true None ;;;
    ret true.

Definition add_many (name : str) (entries : list str) : M Z :=
  match entries with
  | [] => ret 0
  | _ :: _ =>
      let lines := map (fun entry => "add " ++ name ++ " " ++ entry ++ " -exist") entries in
      let restore_input := join LF lines ++ [LF] in
      _run ["restore"] true (Some restore_input) ;;;
      ret (Z.of_nat (length entries))
  end.

(** [temp_name = f"{name[:26]}_tmp"] *)
Definition temp_name (name : str) : str := take 26 name ++ "_tmp".

(** The [try] block of [update] *)
Definition update_try (name temp_name : str) (entries : list str)
    (ipset_type family : str) (max_entries : Z) : M Z :=
  create name ipset_type family max_entries ;;;
  stale <- exists_ temp_name ;;
  (if stale then destroy temp_name ;;; ret tt else ret tt) ;;;
  create temp_name ipset_type family max_entries ;;;
  (match entries with
   | [] => ret tt
   | _ :: _ => add_many temp_name entries ;;; ret tt
   end) ;;;
  _run ["swap"; temp_name; name] true None ;;;
  destroy temp_name ;;;
  ret (Z.of_nat (length entries)).

(** The [except Exception] block of [update] *)
Definition update_except (temp_name : str) (e : exn) : M Z :=
  left_over <- exists_ temp_name ;;
  (if left_over then pass_IPSetError (destroy temp_name ;;; ret tt) else ret tt) ;;;
  raise e.

Definition update (name : str) (entries : list str)
    (ipset_type family : str) (max_entries : Z) : M Z :=
  lift (validate_list_name name) ;;;
  let temp_name := temp_name name in
  try_except
    (update_try name temp_name entries ipset_type family max_entries)
    (update_except temp_name).
End IPSetManager.
End ipset.

(* ================================================================== *)
(** * cli.py *)
(* ================================================================== *)

Module cli.
Import Py ipset.

(** The fields of [ListConfig] the update reads. *)
Record ListConfig := {
  name : str;
  source_url : str;
  ipset_type : str;
  family : str;
  max_entries : Z
}.

(** [CLI._do_update]; [t] is what the transport does for
    [list_config.source_url]. Messages written to the console are left out. *)
Definition _do_update (ipset_cmd : str) (faults : nat -> kernel.fault)
    (list_config : ListConfig) (t : fetcher.transport) : M Z :=
  fetched <- lift (fetcher.fetch (source_url list_config) t) ;;
  let '(entries, errors) := fetched in
  match entries with
  | [] => ret 0
  | _ :: _ =>
      update ipset_cmd faults (name list_config) entries
             (ipset_type list_config) (family list_config)
             (max_entries list_config) ;;;
      ret 0
  end.
End cli.

(* ================================================================== *)
(** * Notions used to state the properties *)
(* ================================================================== *)

Import Py.

(** A name as the data model describes it: 1 to 31 characters, the first a
    letter, the others letters, digits, underscore or hyphen. *)
Definition spec_valid_name (name : str) : bool :=
  match name with
  | [] => false
  | c :: r =>
      constants.cls_letter c && forallb constants.cls_name_char r
      && (length name <=? 31)%nat
  end.

(** [b] ends with [a]. *)
Definition ends_with (a b : str) : Prop := exists prefix, b = prefix ++ a.

(** [a] occurs in [b]. *)
Definition occurs_in (a b : str) : Prop := exists prefix suffix, b = prefix ++ a ++ suffix.

(** The command line is a [swap]. *)
Definition is_swap (call : list str * option str) : bool :=
  match fst call with
  | _ :: sub :: _ => str_eqb sub "swap"
  | _ => false
  end.

(** The command line is a [destroy], a [create]. *)
Definition is_destroy (call : list str * option str) : bool :=
  match fst call with
  | _ :: sub :: _ => str_eqb sub "destroy"
  | _ => false
  end.

Definition is_create (call : list str * option str) : bool :=
  match fst call with
  | _ :: sub :: _ => str_eqb sub "create"
  | _ => false
  end.

(** The commands a call ran: those logged after the ones of [w]. *)
Definition calls_since (w w' : ipset.world) : list (list str * option str) :=
  drop (length (ipset.calls w)) (ipset.calls w').



(** ** The parser, as the design describes it *)

(** The tokens of one line, after trimming: none for a blank or comment
    line, else the non-empty pieces [_split_entries] gives. *)
Definition line_tokens (line : str) : list str :=
  let line := strip line in
  if is_empty line then []
  else if startswith_any constants.COMMENT_CHARS line then []
  else List.filter (fun p => negb (is_empty p)) (fetcher._split_entries line).

(** The tokens of a text with their line numbers (from [start]), top to
    bottom and left to right. *)
Fixpoint numbered_tokens (start : nat) (lines : list str) : list (nat * str) :=
  match lines with
  | [] => []
  | line :: rest =>
      map (pair start) (line_tokens line) ++ numbered_tokens (S start) rest
  end.

Definition tokens_of (content : str) : list (nat * str) :=
  numbered_tokens 1 (splitlines content).

(** The canonical form of a token, when it has one. *)
Definition canonical (token : str) : option str :=
  match validator.parse_ip_entry token with
  | Ok (entry, _) => Some entry
  | Raise _ => None
  end.

(** The failure of a token, when it has no canonical form. *)
Definition failure (numbered : nat * str) : option (nat * exn) :=
  match validator.parse_ip_entry (snd numbered) with
  | Ok _ => None
  | Raise e => Some (fst numbered, e)
  end.

Definition spec_entries (content : str) : list str :=
  omap (fun nt => canonical (snd nt)) (tokens_of content).

Definition spec_failures (content : str) : list (nat * exn) :=
  omap failure (tokens_of content).

Definition spec_errors (content : str) : list str :=
  map (fun ne => fetcher.line_error (fst ne) (snd ne)) (spec_failures content).

(** ** Addresses *)

(** The width of an address of a family. *)
Definition family_bits (family : str) : Z :=
  if str_eqb family "inet" then 32 else 128.

(** What an address text denotes: its family and its integer. *)
Definition address_value (text : str) : option (str * Z) :=
  match ipaddress.ip_address text with
  | ipaddress.Value (ipaddress.IPv4Address ip) => Some ("inet", ip)
  | ipaddress.Value (ipaddress.IPv6Address ip _) => Some ("inet6", ip)
  | ipaddress.ValueError _ => None
  end.

Import constants validator fetcher kernel ipset cli.

(** ** The update and the target set *)

Definition list_call (ipset_cmd name : str) : list str * option str :=
  ([ipset_cmd; "list"; name; "-n"], None).




Definition error_of (numbered : nat * str) : option str :=
  (fun ne => line_error (fst ne) (snd ne)) <$> failure numbered.

Definition sample_config : ListConfig :=
  {| name := "blocklist"; source_url := "https://example.org/list";
     ipset_type := "hash:net"; family := "inet"; max_entries := 65536 |}.

Definition sample_world : world :=
  World {[ "blocklist" := IPSet "hash:net" "inet" 65536 ["10.0.0.0/8"] ]} [].

Definition no_faults : nat -> fault := fun _ => NoFault.

(** The eighth command run (the clean-up's [destroy]) fails. *)
Definition destroy_refused : nat -> fault :=
  fun n => if (n =? 7)%nat then ExitFail "ipset: Set cannot be destroyed: it is in use"
           else NoFault.

(** ** Exhaustive checks on printed numbers *)

(** [P] holds of the [count] numbers from [start] on. *)
Fixpoint holds_from (P : Z -> bool) (start : Z) (count : nat) : bool :=
  match count with
  | O => true
  | S c => P start && holds_from P (start + 1) c
  end.

Definition octet_ok (o : Z) : bool :=
  let s := str_of_int o in
  negb (is_empty s) && forallb isdigit s
  && bool_decide (ipaddress.V4._parse_octet s = Some o).

Definition prefix_ok (p : Z) : bool :=
  let s := str_of_int p in
  ipaddress.ascii_digits s && (int_of_digits s =? p).

Definition hextet_ok (h : Z) : bool :=
  let s := hex h in
  negb (is_empty s) && forallb ishex s
  && bool_decide (ipaddress.V6._parse_hextet s = Some h)
  && Bool.eqb (str_eqb s "0") (h =? 0).


(** The characters of a dotted-quad text. *)
Definition v4_char (c : ascii) : bool := isdigit c || Ascii.eqb c ".".

(** The characters of a colon-separated IPv6 text. *)
Definition v6_char (c : ascii) : bool := ishex c || Ascii.eqb c ":".

(** All that [_compress_hextets] reads of a hextet: whether it is ["0"]. *)
Definition canon_hextet (h : str) : str := if str_eqb h "0" then "0" else "1".

(** A part that [_parse_hextet] may accept: non-empty, hex digits only. *)
Definition hextet_text (p : str) : Prop := p <> [] /\ forallb ishex p = true.

(** The scope ids [_split_scope_id] lets through: none, or a non-empty text
    without [%]; [IPv6Address] has refused any [/] before. *)
Definition scope_ok (scope_id : option str) : Prop :=
  match scope_id with
  | None => True
  | Some x => is_empty x = false /\ contains "%" x = false /\ contains "/" x = false
  end.

(** ** The layout of a line, as the design describes it *)

(** Space, comma or tab: what [_split_entries] looks for before it splits. *)
Definition is_delim (c : ascii) : bool :=
  Ascii.eqb c " " || Ascii.eqb c "," || Ascii.eqb c TAB.

(** A comment marker. *)
Definition is_comment (c : ascii) : bool := Ascii.eqb c "#" || Ascii.eqb c ";".

(** The text before the first character that [stop] holds of. *)
Fixpoint before (stop : ascii -> bool) (s : str) : str :=
  match s with
  | [] => []
  | c :: r => if stop c then [] else c :: before stop r
  end.

(** A line trimmed, cut at its first comment marker, and trimmed again. *)
Definition comment_free (line : str) : str :=
  strip (before is_comment (strip line)).

(** [text] is at its end or goes on with a separator (white space or comma). *)
Definition at_boundary (text : str) : Prop :=
  match text with
  | [] => True
  | c :: _ => is_sep c = true
  end.

(** [laid_out tokens text]: [text] is made of the [tokens], from left to
    right, each a non-empty run without separator that ends at a boundary,
    with runs of separators before, between and after them. *)
Inductive laid_out : list str -> str -> Prop :=
  | laid_out_end gap :
      forallb is_sep gap = true -> laid_out [] gap
  | laid_out_token gap token tokens rest :
      forallb is_sep gap = true ->
      token <> [] ->
      forallb (fun c => negb (is_sep c)) token = true ->
      at_boundary rest ->
      laid_out tokens rest ->
      laid_out (token :: tokens) (gap ++ token ++ rest).

(** The tokens of a line: none for a blank line or a comment line; else
    the runs between separators of the comment-free text when that text
    holds a space, a comma or a tab, and the whole comment-free text when
    it holds none of the three. *)
Definition line_layout (line : str) (tokens : list str) : Prop :=
  let text := comment_free line in
  if is_empty (strip line) || startswith_any constants.COMMENT_CHARS (strip line)
  then tokens = []
  else if existsb is_delim text then laid_out tokens text
  else tokens = [text].

(** [entry] is the canonical form of [token]: the comment-free text of the
    token is an address text, alone or followed by a slash and a mask; the
    entry is a network address, a slash and a prefix length within the
    width of the family, the full width when the token has no slash; and
    the network address reads back as the token's address with the bits
    beyond the prefix cleared and the others kept. *)
Definition canonical_form (token entry : str) : Prop :=
  exists addr_text network_addr family addr_int net_int prefix,
    entry = network_addr ++ "/" ++ str_of_int prefix
    /\ ((contains "/" (comment_free token) = false
         /\ addr_text = comment_free token /\ prefix = family_bits family)
        \/ (exists mask_text,
              split "/" (comment_free token) = [addr_text; mask_text]
              /\ (ipaddress.ascii_digits mask_text = true
                  -> prefix = int_of_digits mask_text)))
    /\ address_value addr_text = Some (family, addr_int)
    /\ address_value network_addr = Some (family, net_int)
    /\ 0 <= prefix <= family_bits family
    /\ (forall i, 0 <= i ->
          Z.testbit net_int i
          = Z.testbit addr_int i && (family_bits family - prefix <=? i)).

(** ** Runs of the program that go wrong from outside *)

(** The first command run exits with an error (here: the [list] query). *)
Definition query_refused : nat -> fault :=
  fun n => if (n =? 0)%nat
           then ExitFail "ipset: Kernel error received: Operation not permitted"
           else NoFault.

(** The program is not installed. *)
Definition program_missing : nat -> fault := fun _ => NotFound.
(** A text the program reads as one word of a directive: non-empty, without
    blank or line feed. *)





(* ================================================================== *)
(** * Properties *)
(* ================================================================== *)

Import ipaddress.

(* ---------- split / join ---------- *)
Lemma split_nonempty sep s : split sep s <> [].
Proof.
  destruct s as [|c r]; simpl; [discriminate|].
  destruct (Ascii.eqb c sep); [discriminate|].
  destruct (split sep r); discriminate.
Qed.

Lemma split_no_sep sep s : contains sep s = false -> split sep s = [s].
Proof.
  induction s as [|c r IH]; simpl; [reflexivity|].
  rewrite Ascii.eqb_sym. destruct (Ascii.eqb c sep); simpl; [discriminate|].
  intros H. now rewrite IH.
Qed.

Lemma split_app_sep sep a b :
  contains sep a = false -> split sep (a ++ sep :: b) = a :: split sep b.
Proof.
  induction a as [|c r IH]; simpl.
  - intros _. now rewrite Ascii.eqb_refl.
  - rewrite Ascii.eqb_sym. destruct (Ascii.eqb c sep); simpl; [discriminate|].
    intros H. now rewrite IH.
Qed.

Lemma split_join sep parts :
  parts <> [] -> Forall (fun p => contains sep p = false) parts ->
  split sep (join sep parts) = parts.
Proof.
  induction parts as [|p ps IH]; [congruence|]. intros _ Hall.
  apply Forall_cons in Hall as [Hp Hps].
  destruct ps as [|q qs].
  - simpl. now apply split_no_sep.
  - change (join sep (p :: q :: qs)) with (p ++ sep :: join sep (q :: qs)).
    rewrite split_app_sep by assumption. f_equal. now apply IH.
Qed.



Lemma contains_app sep a b : contains sep (a ++ b) = contains sep a || contains sep b.
Proof. unfold contains. apply existsb_app. Qed.

(* ---------- words ---------- *)
Lemma split_runs_nonempty sep b s : split_runs sep b s <> [].
Proof.
  revert b. induction s as [|c r IH]; intros b; simpl; [discriminate|].
  destruct (sep c).
  - destruct b; [apply IH | discriminate].
  - destruct (split_runs sep false r); discriminate.
Qed.





(* ---------- characters and text ---------- *)
Lemma isdigit_ishex c : isdigit c = true -> ishex c = true.
Proof. unfold ishex. now intros ->. Qed.

Lemma ishex_plain c :
  ishex c = true ->
  isspace c = false /\ c <> ":"%char /\ c <> "."%char /\ c <> "/"%char /\ c <> "%"%char.
Proof.
  destruct c as [[] [] [] [] [] [] [] []]; vm_compute; intros H;
    try discriminate H; repeat split; discriminate.
Qed.

Lemma forallb_join (Q : ascii -> bool) sep parts :
  Q sep = true -> Forall (fun p => forallb Q p = true) parts ->
  forallb Q (join sep parts) = true.
Proof.
  intros Hsep. induction parts as [|p ps IH]; intros Hall; [reflexivity|].
  apply Forall_cons in Hall as [Hp Hps]. destruct ps as [|q qs]; [assumption|].
  change (join sep (p :: q :: qs)) with (p ++ sep :: join sep (q :: qs)).
  rewrite forallb_app. cbn [forallb]. now rewrite Hp, Hsep, IH.
Qed.

Lemma forallb_not_contains (Q : ascii -> bool) c s :
  Q c = false -> forallb Q s = true -> contains c s = false.
Proof.
  intros Hc. unfold contains. induction s as [|x s IH]; [reflexivity|].
  cbn [forallb existsb]. rewrite andb_true_iff. intros [Hx Hs].
  rewrite IH by assumption. rewrite orb_false_r.
  apply Ascii.eqb_neq. intros ->. congruence.
Qed.

Lemma forallb_impl (Q R : ascii -> bool) s :
  (forall c, Q c = true -> R c = true) -> forallb Q s = true -> forallb R s = true.
Proof.
  intros H. rewrite !forallb_forall. auto.
Qed.

Lemma join_split sep s : join sep (split sep s) = s.
Proof.
  induction s as [|c r IH]; [reflexivity|]. cbn [split].
  destruct (Ascii.eqb c sep) eqn:E.
  - apply Ascii.eqb_eq in E. subst.
    destruct (split sep r) as [|f fs] eqn:Es; [now destruct (split_nonempty sep r)|].
    change (join sep ([] :: f :: fs)) with (sep :: join sep (f :: fs)). now rewrite IH.
  - destruct (split sep r) as [|f fs] eqn:Es; [now destruct (split_nonempty sep r)|].
    rewrite <- IH. destruct fs; reflexivity.
Qed.

Lemma split_parts_forallb (Q : ascii -> bool) sep s :
  Q sep = true ->
  Forall (fun p => forallb Q p = true) (split sep s) -> forallb Q s = true.
Proof.
  intros Hsep H. rewrite <- (join_split sep s). now apply forallb_join.
Qed.





Lemma name_char_not_LF c : cls_name_char c = true -> c <> LF.
Proof. intros H ->. vm_compute in H. discriminate. Qed.




Example name_of_31 : validate_list_name (replicate 31 "a"%char) = Ok true.
Proof. vm_compute. reflexivity. Qed.

Example name_of_32 : exists m, validate_list_name (replicate 32 "a"%char) = Raise (ValidationError m).
Proof. eexists. vm_compute. reflexivity. Qed.

Example name_digit_first : exists m, validate_list_name "1blocklist" = Raise (ValidationError m).
Proof. eexists. vm_compute. reflexivity. Qed.

Example name_underscore_first : exists m, validate_list_name "_blocklist" = Raise (ValidationError m).
Proof. eexists. vm_compute. reflexivity. Qed.

(** C5: [validate_list_name] accepts ["blocklist\n"], which holds a line
    feed and so is no name of the data model, and it accepts 31 letters
    followed by a line feed, a text of 32 characters: the [$] of
    [LIST_NAME_PATTERN] also matches just before a final line feed. *)
Theorem validate_list_name_trailing_newline :
  validate_list_name ("blocklist" ++ [LF]) = Ok true
  /\ spec_valid_name ("blocklist" ++ [LF]) = false
  /\ validate_list_name (replicate 31 "a"%char ++ [LF]) = Ok true
  /\ length (replicate 31 "a"%char ++ [LF]) = 32%nat.
Proof. vm_compute. repeat split; reflexivity. Qed.








(* ---------- staging names ---------- *)
Lemma temp_name_length name : (length (temp_name name) <= 30)%nat.
Proof.
  unfold temp_name. rewrite length_app, length_take.
  change (length "_tmp") with 4%nat. lia.
Qed.

Lemma temp_name_eq_iff n1 n2 :
  temp_name n1 = temp_name n2 <-> take 26 n1 = take 26 n2.
Proof.
  unfold temp_name. split; [apply app_inv_tail | intros ->; reflexivity].
Qed.

Lemma temp_name_self_iff name :
  temp_name name = name <-> length name = 30%nat /\ drop 26 name = "_tmp".
Proof.
  unfold temp_name. split.
  - intros H.
    assert (Hlen : length name = 30%nat).
    { apply (f_equal length) in H. rewrite length_app, length_take in H.
      change (length "_tmp") with 4%nat in H. lia. }
    split; [assumption|].
    rewrite <- (take_drop 26 name) in H at 2.
    apply app_inv_head in H. symmetry. assumption.
  - intros [_ H]. rewrite <- H. apply take_drop.
Qed.

(** C6: the staging name [f"{name[:26]}_tmp"] is a function of the name and
    has at most 30 characters; two names have the same staging name exactly
    when they agree on their first 26 characters, and a name is its own
    staging name exactly when it has 30 characters and ends in [_tmp]. *)
Theorem staging_name_properties n1 n2 :
  (length (temp_name n1) <= 30)%nat
  /\ (temp_name n1 = temp_name n2 <-> take 26 n1 = take 26 n2)
  /\ (temp_name n1 = n1 <-> length n1 = 30%nat /\ drop 26 n1 = "_tmp").
Proof.
  split; [apply temp_name_length|].
  split; [apply temp_name_eq_iff | apply temp_name_self_iff].
Qed.

Lemma staging_names_short n1 n2 :
  (length n1 <= 26)%nat -> (length n2 <= 26)%nat -> n1 <> n2 ->
  temp_name n1 <> temp_name n2 /\ temp_name n1 <> n1.
Proof.
  intros H1 H2 Hne. split.
  - rewrite temp_name_eq_iff, !take_ge by lia. assumption.
  - rewrite temp_name_self_iff. lia.
Qed.

(** Two distinct names that [validate_list_name] accepts and that share one
    staging name. *)
Lemma staging_names_collide :
  validate_list_name "aaaaaaaaaaaaaaaaaaaaaaaaaa1" = Ok true
  /\ validate_list_name "aaaaaaaaaaaaaaaaaaaaaaaaaa2" = Ok true
  /\ "aaaaaaaaaaaaaaaaaaaaaaaaaa1" <> "aaaaaaaaaaaaaaaaaaaaaaaaaa2"
  /\ temp_name "aaaaaaaaaaaaaaaaaaaaaaaaaa1" = temp_name "aaaaaaaaaaaaaaaaaaaaaaaaaa2".
Proof. vm_compute. repeat split; try reflexivity. discriminate. Qed.

Example staging_name_is_a_valid_name :
  validate_list_name "blocklist" = Ok true
  /\ validate_list_name "blocklist_tmp" = Ok true
  /\ temp_name "blocklist" = "blocklist_tmp".
Proof. vm_compute. repeat split; reflexivity. Qed.


(** An HTTP status error, a connection failure and a timeout all leave
    [fetch] as exceptions of the one class [FetchError]. *)
Lemma fetch_errors_share_one_class :
  exists m1 m2 m3,
    fetch "https://example.org/list" (HTTPError 404) = Raise m1
    /\ fetch "https://example.org/list" (URLError "unreachable") = Raise m2
    /\ fetch "https://example.org/list" TimeoutError = Raise m3
    /\ class_of m1 = class_of m2 /\ class_of m2 = class_of m3.
Proof. do 3 eexists. repeat split; reflexivity. Qed.

(** C4: for an HTTP status error, a connection failure and a timeout,
    [fetch] raises [FetchError] each time; the three messages differ from one
    another, each ends with the URL, and the first holds the status code. *)
Theorem fetch_errors_distinct_messages url code reason :
  exists m1 m2 m3,
    fetch url (HTTPError code) = Raise (FetchError m1)
    /\ fetch url (URLError reason) = Raise (FetchError m2)
    /\ fetch url TimeoutError = Raise (FetchError m3)
    /\ m1 <> m2 /\ m1 <> m3 /\ m2 <> m3
    /\ ends_with url m1 /\ ends_with url m2 /\ ends_with url m3
    /\ occurs_in (str_of_int code) m1.
Proof.
  do 3 eexists. split; [reflexivity|]. split; [reflexivity|]. split; [reflexivity|].
  repeat split; try discriminate.
  - exists ("HTTP error " ++ str_of_int code ++ ": "). now rewrite <- !app_assoc.
  - exists ("URL error: " ++ reason ++ " - "). now rewrite <- !app_assoc.
  - exists "Timeout fetching ". reflexivity.
  - exists "HTTP error ", (": " ++ url). reflexivity.
Qed.



Lemma validate_cidr_raises cidr e :
  validate_cidr cidr = Raise e -> exists m, e = ValidationError m.
Proof.
  unfold validate_cidr. intros H.
  repeat case_match; simplify_eq; eauto.
Qed.

Lemma parse_ip_entry_raises entry e :
  parse_ip_entry entry = Raise e -> exists m, e = ValidationError m.
Proof.
  unfold parse_ip_entry. intros H.
  repeat case_match; simplify_eq; eauto using validate_cidr_raises.
Qed.

Lemma parse_part_fold line_num parts : forall entries errors,
  fold_left (parse_part line_num) parts (Ok (entries, errors))
  = Ok (entries ++ omap canonical (List.filter (fun p => negb (is_empty p)) parts),
        errors ++ omap error_of
                    (map (pair line_num) (List.filter (fun p => negb (is_empty p)) parts))).
Proof.
  induction parts as [|p parts IH]; intros entries errors; simpl.
  - now rewrite !app_nil_r.
  - destruct (is_empty p) eqn:Hp; simpl; [apply IH|].
    unfold canonical at 1, error_of at 1, failure at 1. simpl.
    destruct (parse_ip_entry p) as [[entry family]|e] eqn:He; simpl.
    + rewrite IH. now rewrite <- app_assoc.
    + destruct (parse_ip_entry_raises _ _ He) as [m ->].
      rewrite IH. now rewrite <- app_assoc.
Qed.

Lemma omap_canonical_numbered (n : nat) (l : list str) :
  omap (fun nt : nat * str => canonical (snd nt)) (map (pair n) l) = omap canonical l.
Proof.
  induction l as [|x l IH]; csimpl; [reflexivity|].
  destruct (canonical x); csimpl; now rewrite IH.
Qed.

Lemma parse_line_fold lines : forall start entries errors,
  fold_left parse_line (enumerate start lines) (Ok (entries, errors))
  = Ok (entries ++ omap (fun nt => canonical (snd nt)) (numbered_tokens start lines),
        errors ++ omap error_of (numbered_tokens start lines)).
Proof.
  induction lines as [|line lines IH]; intros start entries errors; simpl.
  - now rewrite !app_nil_r.
  - rewrite !omap_app, omap_canonical_numbered. unfold line_tokens.
    destruct (is_empty (strip line)) eqn:He; simpl.
    { apply IH. }
    destruct (startswith_any COMMENT_CHARS (strip line)) eqn:Hc; simpl.
    { apply IH. }
    rewrite parse_part_fold, IH. now rewrite <- !app_assoc.
Qed.

Lemma omap_error_of l :
  omap error_of l = map (fun ne => line_error (fst ne) (snd ne)) (omap failure l).
Proof.
  induction l as [|x l IH]; csimpl; [reflexivity|].
  unfold error_of at 1. destruct (failure x); csimpl; now rewrite IH.
Qed.

Lemma parse_ip_list_refines content :
  _parse_ip_list content = Ok (spec_entries content, spec_errors content).
Proof.
  unfold _parse_ip_list, spec_entries, spec_errors, spec_failures, tokens_of.
  rewrite parse_line_fold, omap_error_of. reflexivity.
Qed.

Lemma elem_of_omap_failure (l : list (nat * str)) n e :
  (n, e) ∈ omap failure l <-> exists token, (n, token) ∈ l /\ parse_ip_entry token = Raise e.
Proof.
  rewrite list_elem_of_omap. unfold failure. split.
  - intros ([n' token] & Hin & H). simpl in H.
    destruct (parse_ip_entry token) eqn:He; simplify_eq. eauto.
  - intros (token & Hin & He). exists (n, token). simpl. rewrite He. auto.
Qed.

Lemma numbered_tokens_sorted lines : forall start,
  Forall (le start) (map fst (numbered_tokens start lines))
  /\ StronglySorted le (map fst (numbered_tokens start lines)).
Proof.
  induction lines as [|line lines IH]; intros start; simpl.
  - split; constructor.
  - destruct (IH (S start)) as [Hge Hs].
    rewrite map_app, map_map. simpl.
    assert (Hge' : Forall (le start) (map fst (numbered_tokens (S start) lines))).
    { eapply Forall_impl; [exact Hge|]. simpl. intros; lia. }
    split.
    + apply Forall_app. split; [|assumption].
      apply Forall_forall. intros x Hx. apply list_elem_of_In, in_map_iff in Hx as (? & <- & _). lia.
    + induction (line_tokens line) as [|t ts IHt]; simpl; [assumption|].
      constructor; [assumption|].
      apply Forall_app. split; [|assumption].
      apply Forall_forall. intros x Hx. apply list_elem_of_In, in_map_iff in Hx as (? & <- & _). lia.
Qed.

Lemma failures_sorted (l : list (nat * str)) :
  StronglySorted le (map fst l) -> StronglySorted le (map fst (omap failure l)).
Proof.
  induction l as [|[n t] l IH]; csimpl; intros Hs; [constructor|].
  apply StronglySorted_inv in Hs as [Hs Hall].
  unfold failure at 1. simpl. destruct (parse_ip_entry t); csimpl; [auto|].
  constructor; [auto|].
  apply Forall_forall. intros x Hx.
  apply list_elem_of_In, in_map_iff in Hx as ([n' e'] & <- & Hin). simpl.
  apply list_elem_of_In, elem_of_omap_failure in Hin as (token & Hin & _).
  rewrite Forall_forall in Hall. apply Hall.
  apply list_elem_of_In, in_map_iff. exists (n', token). split; [reflexivity|].
  now apply list_elem_of_In.
Qed.

Lemma omap_canonical_snd (l : list (nat * str)) :
  omap canonical (map snd l) = omap (fun nt => canonical (snd nt)) l.
Proof.
  induction l as [|x l IH]; csimpl; [reflexivity|].
  destruct (canonical (snd x)); csimpl; now rewrite IH.
Qed.

Lemma length_omap_filter {A B} (f : A -> option B) (l : list A) :
  length (omap f l) = length (List.filter (fun x => bool_decide (is_Some (f x))) l).
Proof.
  induction l as [|x l IH]; csimpl; [reflexivity|].
  destruct (f x); simpl; [now rewrite IH | assumption].
Qed.

(** C3: [_parse_ip_list] returns for every text, never raising: its entries
    are the canonical forms of the tokens [parse_ip_entry] accepts and its
    errors the messages ["Line <n>: <message>"] of the tokens it refuses, [n]
    being the token's line counted from 1. Every token of the text is
    accounted for in one of the two lists, and every error comes from a
    refused token. The text of three lines with [invalid] on the second gives
    the two entries around it and one error for line 2. *)
Theorem parse_accumulates_and_continues content :
  _parse_ip_list content = Ok (spec_entries content, spec_errors content)
  /\ (forall n token, (n, token) ∈ tokens_of content ->
      (exists entry family, parse_ip_entry token = Ok (entry, family)
                            /\ entry ∈ spec_entries content)
      \/ (exists msg, parse_ip_entry token = Raise (ValidationError msg)
                      /\ "Line " ++ str_of_int (Z.of_nat n) ++ ": " ++ msg
                         ∈ spec_errors content))
  /\ (forall err, err ∈ spec_errors content ->
      exists n token msg, (n, token) ∈ tokens_of content
        /\ parse_ip_entry token = Raise (ValidationError msg)
        /\ err = "Line " ++ str_of_int (Z.of_nat n) ++ ": " ++ msg)
  /\ _parse_ip_list ("192.168.1.0/24" ++ [LF] ++ "invalid" ++ [LF] ++ "10.0.0.0/8")
     = Ok (["192.168.1.0/24"; "10.0.0.0/8"], ["Line 2: Invalid IP address: invalid"]).
Proof.
  split; [apply parse_ip_list_refines|]. split; [|split].
  - intros n token Hin.
    destruct (parse_ip_entry token) as [[entry family]|e] eqn:He.
    + left. exists entry, family. split; [reflexivity|].
      unfold spec_entries. apply list_elem_of_omap. exists (n, token).
      split; [assumption|]. unfold canonical. simpl. now rewrite He.
    + right. destruct (parse_ip_entry_raises _ _ He) as [msg ->].
      exists msg. split; [reflexivity|].
      unfold spec_errors, spec_failures.
      apply list_elem_of_In, in_map_iff. exists (n, ValidationError msg).
      split; [reflexivity|]. apply list_elem_of_In, elem_of_omap_failure. eauto.
  - intros err Hin. unfold spec_errors, spec_failures in Hin.
    apply list_elem_of_In, in_map_iff in Hin as ([n e] & <- & Hin).
    apply list_elem_of_In, elem_of_omap_failure in Hin as (token & Hin & He).
    destruct (parse_ip_entry_raises _ _ He) as [msg ->].
    exists n, token, msg. auto.
  - vm_compute. reflexivity.
Qed.



Section Frame.
Variable ipset_cmd : str.
Variable faults : nat -> fault.
Variable name : str.
Variable w0 : world.








End Frame.

(* ---------- kernel commands and the target ---------- *)
Section Commands.
Variable name : str.






End Commands.

Section Update.
Variable ipset_cmd : str.
Variable faults : nat -> fault.
Variable name : str.
Variable w0 : world.










End Update.

Section Cleanup.
Variable ipset_cmd : str.
Variable faults : nat -> fault.



End Cleanup.



(** When the cleanup's [destroy] fails as well, the staging set is left
    behind: the handler passes over that error. *)
Lemma update_failure_leaves_staging :
  exists e w',
    update "ipset" destroy_refused "blocklist" ["1.1.1.1/32"; "2.2.2.2/32"]
           "hash:net" "inet" 1 sample_world = (Raise e, w')
    /\ existsb is_swap (calls_since sample_world w') = false
    /\ sets w' !! "blocklist" = sets sample_world !! "blocklist"
    /\ is_Some (sets w' !! temp_name "blocklist").
Proof.
  exists (IPSetError "ipset command failed: ipset: Error in line: cannot add the element").
  eexists. split; [vm_compute; reflexivity|].
  split; [vm_compute; reflexivity|].
  split; [vm_compute; reflexivity|].
  vm_compute. eexists. reflexivity.
Qed.

(** C1: for the name of 26 letters followed by [_tmp], which
    [validate_list_name] accepts, the staging name is the name itself;
    [update] then takes the target for a staging set left behind and
    destroys it. With a bulk load that fails, the call raises before any
    swap and the target, which held [10.0.0.0/8], no longer exists. *)
Example update_failure_staging_is_target :
  let name : str := "aaaaaaaaaaaaaaaaaaaaaaaaaa_tmp" in
  let w := World {[ name := IPSet "hash:net" "inet" 65536 ["10.0.0.0/8"] ]} [] in
  validate_list_name name = Ok true
  /\ temp_name name = name
  /\ exists e w',
       update "ipset" no_faults name ["1.1.1.1/32"; "2.2.2.2/32"] "hash:net" "inet" 1 w
       = (Raise e, w')
       /\ existsb is_swap (calls_since w w') = false
       /\ sets w' !! name = None.
Proof.
  split; [vm_compute; reflexivity|]. split; [vm_compute; reflexivity|].
  exists (IPSetError "ipset command failed: ipset: Error in line: cannot add the element").
  eexists. split; [vm_compute; reflexivity|].
  split; vm_compute; reflexivity.
Qed.

(** An entry holding a line feed adds a directive of its own to the batch:
    here it puts an address into the target before the batch fails. *)
Example update_failure_entry_with_line_feed :
  let entry : str := "1.1.1.1/32 -exist" ++ [LF] ++ "add blocklist 6.6.6.6/32" in
  exists e w' r,
    update "ipset" no_faults "blocklist" [entry; "2.2.2.2/32"] "hash:net" "inet" 1 sample_world
    = (Raise e, w')
    /\ existsb is_swap (calls_since sample_world w') = false
    /\ sets w' !! "blocklist" = Some r
    /\ members r = ["10.0.0.0/8"; "6.6.6.6/32"].
Proof.
  exists (IPSetError "ipset command failed: ipset: Error in line: cannot add the element").
  eexists. eexists. split; [vm_compute; reflexivity|].
  split; [vm_compute; reflexivity|].
  split; vm_compute; reflexivity.
Qed.

(** C7: when the fetch of the configured URL gives no entry, [_do_update]
    returns 0 and leaves the sets and the log of commands as they were: no
    command is run, [update] is not called. *)
Theorem do_update_without_entries ipset_cmd faults list_config t errors w :
  fetch (source_url list_config) t = Ok ([], errors) ->
  _do_update ipset_cmd faults list_config t w = (Ok 0, w).
Proof.
  intros H. unfold _do_update, bind, lift. rewrite H. reflexivity.
Qed.

Lemma do_update_without_entries_witness :
  let w := World {[ "blocklist" := IPSet "hash:net" "inet" 65536 ["10.0.0.0/8"] ]} [] in
  _do_update "ipset" (fun _ => NoFault) sample_config
    (Body ("# nothing today" ++ [LF] ++ "not-an-address" ++ [LF])) w = (Ok 0, w).
Proof.
  intros w. eapply do_update_without_entries. vm_compute. reflexivity.
Defined.


(** C9: for a name that [validate_list_name] accepts, [destroy] of a set that
    does not exist returns [False] without raising, having run the [list]
    query only and no [destroy] command, provided the program could be
    started for the query; [create] of a set that exists returns [False],
    having run the [list] query only and no [create] command, provided the
    query ran without a fault. The sets stay as they were. *)
Theorem destroy_absent_create_present ipset_cmd faults name w :
  validate_list_name name = Ok true ->
  (sets w !! name = None ->
   faults (length (calls w)) <> NotFound ->
   (forall text, faults (length (calls w)) <> SpawnError text) ->
   destroy ipset_cmd faults name w
   = (Ok false, World (sets w) (calls w ++ [list_call ipset_cmd name])))
  /\ (forall ipset_type family max_entries,
      is_Some (sets w !! name) ->
      faults (length (calls w)) = NoFault ->
      create ipset_cmd faults name ipset_type family max_entries w
      = (Ok false, World (sets w) (calls w ++ [list_call ipset_cmd name]))).
Proof.
  intros Hv. split.
  - intros Habsent Hnf Hsp.
    unfold destroy, bind, lift, exists_, bind, _run. rewrite Hv.
    unfold main, cmd_list_name. simpl. rewrite Habsent.
    destruct (faults (length (calls w))); try reflexivity.
    + congruence.
    + exfalso. eapply Hsp. reflexivity.
  - intros ty fam mx [r Hr] Hf.
    unfold create, bind, lift, exists_, bind, _run. rewrite Hv, Hf.
    unfold main, cmd_list_name. simpl. rewrite Hr. reflexivity.
Qed.

Lemma destroy_absent_create_present_witness :
  destroy "ipset" no_faults "missing" sample_world
  = (Ok false, World (sets sample_world)
                 (calls sample_world ++ [list_call "ipset" "missing"]))
  /\ create "ipset" no_faults "blocklist" "hash:net" "inet" 65536 sample_world
     = (Ok false, World (sets sample_world)
                    (calls sample_world ++ [list_call "ipset" "blocklist"])).
Proof.
  split.
  - apply (destroy_absent_create_present "ipset" no_faults "missing" sample_world).
    + vm_compute. reflexivity.
    + vm_compute. reflexivity.
    + vm_compute. discriminate.
    + intros text. vm_compute. discriminate.
  - apply (destroy_absent_create_present "ipset" no_faults "blocklist" sample_world).
    + vm_compute. reflexivity.
    + vm_compute. eexists. reflexivity.
    + vm_compute. reflexivity.
Defined.

(** Without these provisions neither holds. When the [list] query exits with
    an error, [create] takes an existing set for absent, runs the [create]
    command and raises; when the program is missing, [destroy] of a set that
    does not exist raises. *)
Lemma create_present_destroy_absent_raise :
  (exists msg w',
     is_Some (sets sample_world !! "blocklist")
     /\ create "ipset" query_refused "blocklist" "hash:net" "inet" 65536 sample_world
        = (Raise (IPSetError msg), w')
     /\ existsb is_create (calls_since sample_world w') = true
     /\ sets w' = sets sample_world)
  /\ (exists msg w',
        sets sample_world !! "missing" = None
        /\ destroy "ipset" program_missing "missing" sample_world
           = (Raise (IPSetError msg), w')
        /\ sets w' = sets sample_world).
Proof.
  split.
  - eexists. eexists. split; [vm_compute; eexists; reflexivity|].
    split; [vm_compute; reflexivity|]. split; vm_compute; reflexivity.
  - eexists. eexists. split; [vm_compute; reflexivity|].
    split; vm_compute; reflexivity.
Qed.


(* ---------- groups of bits ---------- *)
Lemma lor_shiftl_add a g w :
  0 <= w -> 0 <= g < 2 ^ w -> Z.lor (Z.shiftl a w) g = a * 2 ^ w + g.
Proof.
  intros Hw Hg.
  assert (Hland : Z.land (Z.shiftl a w) g = 0).
  { apply Z.bits_inj'. intros i Hi. rewrite Z.land_spec, Z.bits_0.
    destruct (Z.lt_ge_cases i w) as [Hlt | Hge].
    - rewrite Z.shiftl_spec_low by assumption. reflexivity.
    - destruct (Z.eq_dec g 0) as [-> | Hne].
      + rewrite Z.bits_0. apply andb_false_r.
      + rewrite (Z.bits_above_log2 g i); [apply andb_false_r | lia |].
        apply Z.log2_lt_pow2; [lia|].
        apply Z.lt_le_trans with (2 ^ w); [lia|]. apply Z.pow_le_mono_r; lia. }
  rewrite <- Z.lxor_lor by assumption.
  rewrite <- Z.add_nocarry_lxor by assumption.
  now rewrite Z.shiftl_mul_pow2.
Qed.

Lemma from_groups_cons w acc g gs :
  from_groups w acc (g :: gs) = from_groups w (Z.lor (Z.shiftl acc w) g) gs.
Proof. reflexivity. Qed.

Lemma from_groups_app w acc gs1 gs2 :
  from_groups w acc (gs1 ++ gs2) = from_groups w (from_groups w acc gs1) gs2.
Proof. unfold from_groups. apply fold_left_app. Qed.

Lemma from_groups_range w gs : forall acc m,
  0 < w -> 0 <= m -> 0 <= acc < 2 ^ m ->
  Forall (fun g => 0 <= g < 2 ^ w) gs ->
  0 <= from_groups w acc gs < 2 ^ (m + w * Z.of_nat (length gs)).
Proof.
  induction gs as [|g gs IH]; intros acc m Hw Hm Hacc Hall.
  - simpl. rewrite Z.mul_0_r, Z.add_0_r. assumption.
  - apply Forall_cons in Hall as [Hg Hall]. rewrite from_groups_cons.
    replace (m + w * Z.of_nat (length (g :: gs)))
      with ((m + w) + w * Z.of_nat (length gs)) by (cbn [length]; lia).
    apply IH; try assumption; try lia.
    rewrite lor_shiftl_add by lia. rewrite Z.pow_add_r by lia. nia.
Qed.

Lemma from_groups_zeros w k : forall acc,
  0 <= w ->
  from_groups w acc (replicate k 0) = Z.shiftl acc (w * Z.of_nat k).
Proof.
  induction k as [|k IH]; intros acc Hw.
  - simpl. now rewrite Z.mul_0_r, Z.shiftl_0_r.
  - cbn [replicate]. rewrite from_groups_cons, Z.lor_0_r, IH by assumption.
    rewrite Z.shiftl_shiftl by assumption. f_equal. lia.
Qed.

Lemma to_groups_S w count n :
  to_groups w (S count) n
  = Z.land (Z.shiftr n (w * Z.of_nat count)) (2 ^ w - 1) :: to_groups w count n.
Proof.
  unfold to_groups. rewrite seq_S, rev_app_distr. reflexivity.
Qed.

Lemma to_groups_length w count n : length (to_groups w count n) = count.
Proof. unfold to_groups. now rewrite length_map, length_rev, length_seq. Qed.

Lemma group_range w x : 0 <= w -> 0 <= Z.land x (2 ^ w - 1) < 2 ^ w.
Proof.
  intros Hw. change (2 ^ w - 1) with (Z.pred (2 ^ w)). rewrite <- Z.ones_equiv.
  rewrite Z.land_ones by assumption. apply Z.mod_pos_bound. lia.
Qed.

Lemma to_groups_range w count n :
  0 <= w -> Forall (fun g => 0 <= g < 2 ^ w) (to_groups w count n).
Proof.
  intros Hw. unfold to_groups. apply Forall_forall. intros g Hg.
  apply list_elem_of_In, in_map_iff in Hg as (i & <- & _). now apply group_range.
Qed.

Lemma from_to_groups_mod w count : forall n acc,
  0 < w -> 0 <= n ->
  from_groups w acc (to_groups w count n)
  = acc * 2 ^ (w * Z.of_nat count) + n mod 2 ^ (w * Z.of_nat count).
Proof.
  induction count as [|count IH]; intros n acc Hw Hn.
  - simpl. rewrite Z.mul_0_r. simpl. rewrite Z.mod_1_r. lia.
  - rewrite to_groups_S, from_groups_cons, IH by assumption.
    rewrite lor_shiftl_add by (try lia; apply group_range; lia).
    change (2 ^ w - 1) with (Z.pred (2 ^ w)). rewrite <- Z.ones_equiv.
    rewrite Z.land_ones, Z.shiftr_div_pow2 by lia.
    replace (w * Z.of_nat (S count)) with (w * Z.of_nat count + w) by lia.
    rewrite Z.pow_add_r by lia.
    set (B := 2 ^ (w * Z.of_nat count)). set (W := 2 ^ w).
    assert (HB : 0 < B) by (apply Z.pow_pos_nonneg; lia).
    assert (HW : 0 < W) by (apply Z.pow_pos_nonneg; lia).
    rewrite (Z.rem_mul_r n B W) by lia. lia.
Qed.

Lemma from_to_groups w count n :
  0 < w -> 0 <= n < 2 ^ (w * Z.of_nat count) ->
  from_groups w 0 (to_groups w count n) = n.
Proof.
  intros Hw Hn. rewrite from_to_groups_mod by lia.
  rewrite Z.mod_small by assumption. lia.
Qed.

(* ---------- exhaustive checks over a range of numbers ---------- *)
Lemma holds_from_spec (P : Z -> bool) count : forall start,
  holds_from P start count = true ->
  forall z, start <= z < start + Z.of_nat count -> P z = true.
Proof.
  induction count as [|count IH]; intros start H z Hz; [lia|].
  cbn [holds_from] in H. apply andb_true_iff in H as [Hs H].
  destruct (Z.eq_dec z start) as [-> | Hne]; [assumption|].
  apply (IH (start + 1)); [assumption | lia].
Qed.

Lemma forall_below (P : Z -> bool) N :
  holds_from P 0 (Z.to_nat N) = true -> forall z, 0 <= z < N -> P z = true.
Proof.
  intros H z Hz. apply (holds_from_spec P (Z.to_nat N) 0); [assumption | lia].
Qed.

Lemma octets_ok o : 0 <= o < 256 -> octet_ok o = true.
Proof. apply forall_below. vm_compute. reflexivity. Qed.

Lemma prefixes_ok p : 0 <= p < 129 -> prefix_ok p = true.
Proof. apply forall_below. vm_compute. reflexivity. Qed.

Lemma hextets_ok h : 0 <= h < 65536 -> hextet_ok h = true.
Proof. apply forall_below. vm_compute. reflexivity. Qed.

(* ---------- IPv4 text ---------- *)
Lemma octet_facts o :
  0 <= o < 256 ->
  str_of_int o <> [] /\ forallb isdigit (str_of_int o) = true
  /\ V4._parse_octet (str_of_int o) = Some o.
Proof.
  intros H. apply octets_ok in H. unfold octet_ok in H.
  rewrite !andb_true_iff, negb_true_iff, bool_decide_eq_true in H.
  destruct H as [[Hne Hd] Hp]. repeat split; try assumption.
  intros E. rewrite E in Hne. discriminate.
Qed.

Lemma mapM_parse_octets gs :
  Forall (fun g => 0 <= g < 2 ^ 8) gs ->
  mapM V4._parse_octet (map str_of_int gs) = Some gs.
Proof.
  intros H. apply mapM_Some. induction H as [|g gs Hg _ IH]; [constructor|].
  cbn [map]. constructor; [|assumption].
  apply octet_facts. change (2 ^ 8) with 256 in Hg. assumption.
Qed.


Lemma v4_text_chars ip_int :
  forallb v4_char (V4._string_from_ip_int ip_int) = true.
Proof.
  unfold V4._string_from_ip_int. apply forallb_join; [reflexivity|].
  apply Forall_forall. intros p Hp.
  apply list_elem_of_In, in_map_iff in Hp as (g & <- & Hg).
  pose proof (to_groups_range 8 4 ip_int ltac:(lia)) as Hr.
  rewrite Forall_forall in Hr. apply list_elem_of_In, Hr in Hg.
  change (2 ^ 8) with 256 in Hg. apply octet_facts in Hg as (_ & Hd & _).
  eapply forallb_impl; [|exact Hd]. intros c Hc. unfold v4_char. now rewrite Hc.
Qed.

Lemma join_nonempty sep parts : (2 <= length parts)%nat -> join sep parts <> [].
Proof.
  destruct parts as [|p [|q qs]]; cbn [length]; try lia. intros _.
  change (join sep (p :: q :: qs)) with (p ++ sep :: join sep (q :: qs)).
  destruct p; discriminate.
Qed.

Lemma v4_text_nonempty ip_int : V4._string_from_ip_int ip_int <> [].
Proof.
  apply join_nonempty. rewrite length_map, to_groups_length. lia.
Qed.

Lemma v4_roundtrip ip_int :
  0 <= ip_int < 2 ^ 32 ->
  V4.of_string (V4._string_from_ip_int ip_int) = Some ip_int.
Proof.
  intros Hr. unfold V4.of_string.
  rewrite (forallb_not_contains v4_char) by (reflexivity || apply v4_text_chars).
  unfold V4._ip_int_from_string.
  destruct (V4._string_from_ip_int ip_int) eqn:E; [now destruct (v4_text_nonempty ip_int)|].
  cbn [is_empty]. rewrite <- E. clear E. unfold V4._string_from_ip_int.
  assert (Hg : Forall (fun g => 0 <= g < 2 ^ 8) (to_groups 8 4 ip_int))
    by (apply to_groups_range; lia).
  rewrite split_join.
  - rewrite length_map, to_groups_length. cbn [Nat.eqb negb].
    rewrite mapM_parse_octets by assumption. cbn [fmap option_fmap option_map].
    f_equal. apply from_to_groups; [lia | assumption].
  - pose proof (to_groups_length 8 4 ip_int) as Hl.
    destruct (to_groups 8 4 ip_int); [discriminate Hl | discriminate].
  - apply Forall_forall. intros p Hp.
    apply list_elem_of_In, in_map_iff in Hp as (g & <- & Hin).
    rewrite Forall_forall in Hg. apply list_elem_of_In, Hg in Hin.
    change (2 ^ 8) with 256 in Hin. apply octet_facts in Hin as (_ & Hd & _).
    apply (forallb_not_contains isdigit); [reflexivity | assumption].
Qed.

Lemma fold_digits_nonneg s : forall acc,
  0 <= acc -> forallb isdigit s = true ->
  0 <= fold_left (fun acc c => 10 * acc + (code c - 48)) s acc.
Proof.
  induction s as [|c r IH]; intros acc Hacc Hd; [assumption|].
  cbn [forallb] in Hd. apply andb_true_iff in Hd as [Hc Hr]. cbn [fold_left].
  apply IH; [|assumption]. unfold isdigit in Hc. lia.
Qed.

Lemma int_of_digits_nonneg s :
  forallb isdigit s = true -> 0 <= int_of_digits s.
Proof. apply fold_digits_nonneg. lia. Qed.

Lemma ascii_digits_forallb s : ascii_digits s = true -> forallb isdigit s = true.
Proof. unfold ascii_digits. rewrite andb_true_iff. tauto. Qed.

Lemma parse_octet_inv s v :
  V4._parse_octet s = Some v -> 0 <= v < 2 ^ 8 /\ forallb isdigit s = true.
Proof.
  unfold V4._parse_octet. intros H.
  repeat case_match; simplify_eq.
  match goal with H : negb (ascii_digits s) = false |- _ =>
    apply negb_false_iff, ascii_digits_forallb in H; rename H into Hd end.
  split; [|assumption]. pose proof (int_of_digits_nonneg s Hd).
  change (2 ^ 8) with 256. lia.
Qed.

Lemma v4_parse_inv s ip_int :
  V4.of_string s = Some ip_int ->
  0 <= ip_int < 2 ^ 32 /\ forallb v4_char s = true.
Proof.
  unfold V4.of_string, V4._ip_int_from_string. intros H.
  repeat case_match; simplify_eq.
  match goal with H : _ <$> mapM _ _ = Some _ |- _ =>
    apply fmap_Some in H as (gs & Hm & ->) end.
  apply mapM_Some in Hm.
  match goal with H : negb (_ =? 4)%nat = false |- _ =>
    apply negb_false_iff, Nat.eqb_eq in H; rename H into Hlen end.
  split.
  - assert (Hg : Forall (fun g => 0 <= g < 2 ^ 8) gs).
    { clear Hlen. induction Hm as [|o g os gs Ho _ IH]; constructor; [|assumption].
      now apply parse_octet_inv in Ho. }
    pose proof (from_groups_range 8 gs 0 0 ltac:(lia) ltac:(lia) ltac:(lia) Hg) as Hr.
    rewrite <- (Forall2_length _ _ _ Hm), Hlen in Hr. exact Hr.
  - apply (split_parts_forallb v4_char "."); [reflexivity|].
    clear Hlen. induction Hm as [|o g os gs Ho _ IH]; constructor; [|assumption].
    apply parse_octet_inv in Ho as [_ Hd].
    eapply forallb_impl; [|exact Hd]. intros c Hc. unfold v4_char. now rewrite Hc.
Qed.

(* ---------- prefix lengths and netmasks ---------- *)
Lemma prefix_facts p :
  0 <= p <= 128 ->
  str_of_int p <> [] /\ forallb isdigit (str_of_int p) = true
  /\ ascii_digits (str_of_int p) = true /\ int_of_digits (str_of_int p) = p.
Proof.
  intros H. assert (Hp : prefix_ok p = true) by (apply prefixes_ok; lia).
  unfold prefix_ok in Hp. apply andb_true_iff in Hp as [Ha Hi].
  apply Z.eqb_eq in Hi. pose proof (ascii_digits_forallb _ Ha) as Hd.
  repeat split; try assumption.
  intros E. unfold ascii_digits in Ha. rewrite E in Ha. discriminate.
Qed.

Lemma prefix_from_prefix_string_print mx p :
  0 <= p <= mx -> mx <= 128 ->
  _prefix_from_prefix_string mx (str_of_int p) = Some p.
Proof.
  intros Hp Hmx. destruct (prefix_facts p ltac:(lia)) as (_ & _ & Ha & Hi).
  unfold _prefix_from_prefix_string. rewrite Ha, Hi. cbn [negb].
  replace ((0 <=? p) && (p <=? mx)) with true; [reflexivity|].
  symmetry. apply andb_true_iff. split; apply Z.leb_le; lia.
Qed.

Lemma prefix_from_prefix_string_inv mx s p :
  _prefix_from_prefix_string mx s = Some p -> 0 <= p <= mx.
Proof.
  unfold _prefix_from_prefix_string. intros H. repeat case_match; simplify_eq.
  match goal with H : negb (_ && _) = false |- _ =>
    apply negb_false_iff, andb_true_iff in H as [H1 H2] end.
  apply Z.leb_le in H1, H2. lia.
Qed.

Lemma count_zero_bits_range number bits :
  0 <= bits -> 0 <= _count_righthand_zero_bits number bits <= bits.
Proof.
  intros Hb. unfold _count_righthand_zero_bits, bit_length.
  destruct (number =? 0); [lia|].
  destruct (_ =? 0); [lia|].
  pose proof (Z.log2_nonneg (Z.land (Z.lnot number) (number - 1))). lia.
Qed.

Lemma prefix_from_ip_int_inv mx ip_int p :
  0 <= mx -> _prefix_from_ip_int mx ip_int = Some p -> 0 <= p <= mx.
Proof.
  intros Hmx. unfold _prefix_from_ip_int. intros H.
  pose proof (count_zero_bits_range ip_int mx Hmx).
  destruct (negb _); simplify_eq. lia.
Qed.

Lemma v4_make_netmask_inv arg netmask p :
  V4._make_netmask arg = Some (netmask, p) ->
  0 <= p <= 32 /\ netmask = _ip_int_from_prefix 32 p.
Proof.
  unfold V4._make_netmask, _prefix_from_ip_string. intros H.
  assert (G : forall q, _prefix_from_ip_int V4._max_prefixlen q = Some p -> 0 <= p <= 32).
  { intros q. apply prefix_from_ip_int_inv. unfold V4._max_prefixlen. lia. }
  repeat case_match; simplify_eq; split; try reflexivity; eauto.
  - match goal with H : negb (_ && _) = false |- _ =>
      apply negb_false_iff, andb_true_iff in H as [H1 H2] end.
    apply Z.leb_le in H1, H2. unfold V4._max_prefixlen in H2. lia.
  - eapply (prefix_from_prefix_string_inv V4._max_prefixlen). eassumption.
Qed.

Lemma v6_make_netmask_inv arg netmask p :
  V6._make_netmask arg = Some (netmask, p) ->
  0 <= p <= 128 /\ netmask = _ip_int_from_prefix 128 p.
Proof.
  unfold V6._make_netmask. intros H.
  repeat case_match; simplify_eq; split; try reflexivity.
  - match goal with H : negb (_ && _) = false |- _ =>
      apply negb_false_iff, andb_true_iff in H as [H1 H2] end.
    apply Z.leb_le in H1, H2. unfold V6._max_prefixlen in H2. lia.
  - eapply (prefix_from_prefix_string_inv V6._max_prefixlen). eassumption.
Qed.

Lemma netmask_testbit mx p i :
  0 <= p <= mx -> 0 <= i ->
  Z.testbit (_ip_int_from_prefix mx p) i = (mx - p <=? i) && (i <? mx).
Proof.
  intros Hp Hi. unfold _ip_int_from_prefix, _ALL_ONES.
  change (2 ^ mx - 1) with (Z.pred (2 ^ mx)). rewrite <- Z.ones_equiv.
  rewrite Z.lxor_spec, Z.shiftr_spec by assumption.
  rewrite !Z.testbit_ones_nonneg by lia.
  destruct (Z.ltb_spec i mx), (Z.ltb_spec (i + p) mx), (Z.leb_spec (mx - p) i);
    try reflexivity; lia.
Qed.

Lemma netmask_nonneg mx p : 0 <= mx -> 0 <= _ip_int_from_prefix mx p.
Proof.
  intros Hmx. unfold _ip_int_from_prefix, _ALL_ONES.
  assert (H : 0 <= 2 ^ mx - 1) by (pose proof (Z.pow_pos_nonneg 2 mx); lia).
  apply Z.lxor_nonneg. rewrite Z.shiftr_nonneg. tauto.
Qed.

Lemma land_range mx a m :
  0 <= mx -> 0 <= a < 2 ^ mx -> 0 <= m -> 0 <= Z.land a m < 2 ^ mx.
Proof.
  intros Hmx Ha Hm.
  assert (H0 : 0 <= Z.land a m) by (apply Z.land_nonneg; now left).
  split; [assumption|].
  destruct (Z.eq_dec (Z.land a m) 0) as [-> | Hne]; [lia|].
  apply Z.log2_lt_pow2; [lia|].
  apply Z.le_lt_trans with (Z.log2 a).
  - pose proof (Z.log2_land a m ltac:(lia) Hm). lia.
  - apply Z.log2_lt_pow2; [|lia].
    destruct (Z.eq_dec a 0) as [-> | ?]; [|lia]. now rewrite Z.land_0_l in Hne.
Qed.

Lemma land_netmask_range mx p a :
  0 <= p <= mx -> 0 <= a < 2 ^ mx ->
  0 <= Z.land a (_ip_int_from_prefix mx p) < 2 ^ mx.
Proof.
  intros Hp Ha. apply land_range; [lia | assumption | apply netmask_nonneg; lia].
Qed.

Lemma land_netmask_idem a m : Z.land (Z.land a m) m = Z.land a m.
Proof. now rewrite <- Z.land_assoc, Z.land_diag. Qed.

Lemma land_netmask_testbit mx p a i :
  0 <= p <= mx -> 0 <= a < 2 ^ mx -> 0 <= i ->
  Z.testbit (Z.land a (_ip_int_from_prefix mx p)) i
  = Z.testbit a i && (mx - p <=? i).
Proof.
  intros Hp Ha Hi. rewrite Z.land_spec, netmask_testbit by assumption.
  destruct (Z.ltb_spec i mx); [now rewrite andb_true_r|].
  rewrite andb_false_r.
  destruct (Z.eq_dec a 0) as [-> | Hne]; [now rewrite Z.bits_0|].
  rewrite (Z.bits_above_log2 a i); [reflexivity | lia |].
  apply Z.log2_lt_pow2; [lia|].
  apply Z.lt_le_trans with (2 ^ mx); [lia|]. apply Z.pow_le_mono_r; lia.
Qed.

(* ---------- IPv6 hextets ---------- *)
Lemma hextet_facts h :
  0 <= h < 2 ^ 16 ->
  hex h <> [] /\ forallb ishex (hex h) = true
  /\ V6._parse_hextet (hex h) = Some h
  /\ str_eqb (hex h) "0" = (h =? 0).
Proof.
  intros H. change (2 ^ 16) with 65536 in H. apply hextets_ok in H. unfold hextet_ok in H.
  rewrite !andb_true_iff, negb_true_iff, bool_decide_eq_true in H.
  destruct H as [[[Hne Hd] Hp] Hz]. apply Bool.eqb_prop in Hz.
  repeat split; try assumption.
  intros E. rewrite E in Hne. discriminate.
Qed.

Lemma hex_value_range c : ishex c = true -> 0 <= hex_value c < 16.
Proof.
  destruct c as [[] [] [] [] [] [] [] []]; vm_compute; intros H;
    try discriminate H; (split; [discriminate | reflexivity]).
Qed.

Lemma fold_hex_range s : forall acc m,
  0 <= m -> 0 <= acc < 16 ^ m -> forallb ishex s = true ->
  0 <= fold_left (fun acc c => 16 * acc + hex_value c) s acc
    < 16 ^ (m + Z.of_nat (length s)).
Proof.
  induction s as [|c r IH]; intros acc m Hm Hacc Hs.
  - cbn [fold_left length]. now rewrite Z.add_0_r.
  - cbn [forallb] in Hs. apply andb_true_iff in Hs as [Hc Hr].
    apply hex_value_range in Hc. cbn [fold_left].
    replace (m + Z.of_nat (length (c :: r))) with ((m + 1) + Z.of_nat (length r))
      by (cbn [length]; lia).
    apply IH; [lia | | assumption].
    rewrite Z.pow_add_r by lia. lia.
Qed.

Lemma parse_hextet_inv s h :
  V6._parse_hextet s = Some h ->
  0 <= h < 2 ^ 16 /\ forallb ishex s = true /\ s <> [].
Proof.
  unfold V6._parse_hextet.
  destruct (forallb ishex s) eqn:Hx; [|discriminate].
  destruct (4 <? length s)%nat eqn:Hlen; [discriminate|].
  destruct s as [|c r]; [discriminate|]. cbn [negb is_empty].
  intros [= <-]. apply Nat.ltb_ge in Hlen.
  split; [|split; [reflexivity | discriminate]].
  pose proof (fold_hex_range (c :: r) 0 0 ltac:(lia) ltac:(lia) Hx) as Hr.
  unfold int_of_hex. split; [lia|].
  apply Z.lt_le_trans with (16 ^ (0 + Z.of_nat (length (c :: r)))); [apply Hr|].
  change (2 ^ 16) with (16 ^ 4). apply Z.pow_le_mono_r; lia.
Qed.

Lemma parse_hextets_print gs : forall acc,
  Forall (fun g => 0 <= g < 2 ^ 16) gs ->
  V6.parse_hextets acc (map hex gs) = Some (from_groups 16 acc gs).
Proof.
  induction gs as [|g gs IH]; intros acc Hall; [reflexivity|].
  apply Forall_cons in Hall as [Hg Hall]. cbn [map V6.parse_hextets].
  destruct (hextet_facts g Hg) as (_ & _ & -> & _). now rewrite IH.
Qed.

Lemma parse_hextets_inv ps : forall acc r m,
  V6.parse_hextets acc ps = Some r ->
  0 <= m -> 0 <= acc < 2 ^ m ->
  0 <= r < 2 ^ (m + 16 * Z.of_nat (length ps))
  /\ Forall (fun p => forallb ishex p = true) ps.
Proof.
  induction ps as [|p ps IH]; intros acc r m H Hm Hacc.
  - cbn in H. simplify_eq. cbn [length]. rewrite Z.mul_0_r, Z.add_0_r. auto.
  - cbn [V6.parse_hextets] in H.
    destruct (V6._parse_hextet p) as [h|] eqn:Eh; [|discriminate].
    apply parse_hextet_inv in Eh as (Hh & Hx & _).
    apply (IH _ _ (m + 16)) in H; [| lia |].
    + destruct H as [Hr Hall]. split; [|constructor; assumption].
      replace (m + 16 * Z.of_nat (length (p :: ps)))
        with (m + 16 + 16 * Z.of_nat (length ps)) by (cbn [length]; lia).
      assumption.
    + rewrite lor_shiftl_add by lia. rewrite Z.pow_add_r by lia. nia.
Qed.

(* ---------- the compressed form ---------- *)

Lemma compress_step_canon st i h :
  V6.compress_step st i h = V6.compress_step st i (canon_hextet h).
Proof.
  unfold V6.compress_step, canon_hextet.
  destruct st as [[[bs bl] ds] dl]. destruct (str_eqb h "0"); reflexivity.
Qed.

Lemma compress_scan_canon hs : forall i st,
  V6.compress_scan i hs st = V6.compress_scan i (map canon_hextet hs) st.
Proof.
  induction hs as [|h hs IH]; intros i st; [reflexivity|].
  cbn [map V6.compress_scan]. now rewrite <- compress_step_canon, IH.
Qed.

Lemma str_eqb_eq (a b : str) : str_eqb a b = true -> a = b.
Proof. unfold str_eqb. apply bool_decide_eq_true. Qed.

Lemma compress_scan_run hs bs bl ds dl :
  length hs = 8%nat ->
  V6.compress_scan 0 hs (-1, 0, -1, 0) = (bs, bl, ds, dl) ->
  1 < bl ->
  0 <= bs /\ bs + bl <= 8
  /\ Forall (fun h => h = "0") (take (Z.to_nat bl) (drop (Z.to_nat bs) hs)).
Proof.
  intros Hlen. rewrite compress_scan_canon.
  destruct hs as [|h0 [|h1 [|h2 [|h3 [|h4 [|h5 [|h6 [|h7 [|]]]]]]]]]; try discriminate Hlen.
  clear Hlen. cbn [map]. unfold canon_hextet.
  destruct (str_eqb h0 "0") eqn:E0; destruct (str_eqb h1 "0") eqn:E1;
  destruct (str_eqb h2 "0") eqn:E2; destruct (str_eqb h3 "0") eqn:E3;
  destruct (str_eqb h4 "0") eqn:E4; destruct (str_eqb h5 "0") eqn:E5;
  destruct (str_eqb h6 "0") eqn:E6; destruct (str_eqb h7 "0") eqn:E7;
  intros H; vm_compute in H; injection H as <- <- <- <-; intros Hbl;
  try (exfalso; lia);
  (split; [lia|]; split; [lia|]);
  vm_compute;
  repeat (apply List.Forall_cons; [apply str_eqb_eq; assumption|]);
  apply List.Forall_nil.
Qed.

Lemma Forall_zero_replicate (l : list str) :
  Forall (fun h => h = "0") l -> l = replicate (length l) "0".
Proof.
  induction 1 as [|h l -> _ IH]; [reflexivity|]. cbn [length replicate]. now rewrite <- IH.
Qed.

Lemma hex_zero_groups gs :
  Forall (fun g => 0 <= g < 2 ^ 16) gs ->
  Forall (fun h => h = "0") (map hex gs) -> gs = replicate (length gs) 0.
Proof.
  induction 1 as [|g gs Hg _ IH]; [reflexivity|]. cbn [map].
  intros H. apply Forall_cons in H as [H0 H]. cbn [length replicate].
  rewrite <- IH by assumption. f_equal.
  destruct (hextet_facts g Hg) as (_ & _ & _ & Hz).
  rewrite H0 in Hz. symmetry in Hz. now apply Z.eqb_eq in Hz.
Qed.

(** The text of the hextets, compressed: unchanged, or a run of at least
    two zero groups replaced by an empty part (and one more empty part at
    an end the run touches). *)
Lemma compress_groups gs :
  length gs = 8%nat -> Forall (fun g => 0 <= g < 2 ^ 16) gs ->
  V6._compress_hextets (map hex gs) = map hex gs
  \/ exists gpre k gpost,
       gs = gpre ++ replicate k 0 ++ gpost /\ (2 <= k)%nat
       /\ V6._compress_hextets (map hex gs)
          = (if gpre is [] then [""] else []) ++ map hex gpre
            ++ "" :: map hex gpost ++ (if gpost is [] then [""] else []).
Proof.
  intros Hlen Hr. unfold V6._compress_hextets.
  destruct (V6.compress_scan 0 (map hex gs) (-1, 0, -1, 0)) as [[[bs bl] ds] dl] eqn:E.
  destruct (1 <? bl) eqn:Hbl; [|now left]. right.
  apply Z.ltb_lt in Hbl.
  apply compress_scan_run in E as (H0 & H8 & Hall); [| now rewrite length_map | assumption].
  set (nb := Z.to_nat bs) in *. set (nl := Z.to_nat bl) in *.
  replace (Z.to_nat (bs + bl)) with (nb + nl)%nat by lia.
  rewrite length_map, Hlen.
  rewrite skipn_map, firstn_map in Hall.
  assert (Hmid : take nl (drop nb gs) = replicate nl 0).
  { rewrite (hex_zero_groups (take nl (drop nb gs))); [| |assumption].
    - f_equal. rewrite length_take, length_drop. lia.
    - apply Forall_take, Forall_drop. assumption. }
  exists (take nb gs), nl, (drop (nb + nl) gs).
  split; [|split; [lia|]].
  - rewrite <- Hmid, <- drop_drop, take_drop, take_drop. reflexivity.
  - assert (Hpre : take nb (map hex gs) = map hex (take nb gs)) by apply firstn_map.
    assert (Hpost : drop (nb + nl) (map hex gs) = map hex (drop (nb + nl) gs))
      by apply skipn_map.
    assert (Hlead : (bs =? 0) = true <-> take nb gs = []).
    { rewrite Z.eqb_eq. split.
      - intros ->. reflexivity.
      - intros Hnil. apply (f_equal length) in Hnil. rewrite length_take in Hnil.
        cbn [length] in Hnil. lia. }
    assert (Htrail : (bs + bl =? Z.of_nat 8) = true <-> drop (nb + nl) gs = []).
    { rewrite Z.eqb_eq. split.
      - intros Hend. apply drop_ge. lia.
      - intros Hnil. apply (f_equal length) in Hnil. rewrite length_drop in Hnil.
        cbn [length] in Hnil. lia. }
    destruct (bs + bl =? Z.of_nat 8) eqn:Eend.
    + pose proof (proj1 (Z.eqb_eq _ _) Eend) as Hend.
      rewrite (proj1 Htrail eq_refl). cbn [map app].
      rewrite take_app_le by (rewrite length_map; lia).
      rewrite drop_app_ge by (rewrite length_map; lia).
      rewrite length_map, Hlen. replace (nb + nl - 8)%nat with 0%nat by lia.
      cbn [drop]. rewrite Hpre.
      destruct (bs =? 0) eqn:Es.
      * rewrite (proj1 Hlead eq_refl). reflexivity.
      * destruct (take nb gs) eqn:Et; [|reflexivity].
        exfalso. destruct Hlead as [_ Hl].
        discriminate (Hl eq_refl).
    + rewrite Hpre, Hpost.
      destruct (drop (nb + nl) gs) eqn:Ed.
      { exfalso. destruct Htrail as [_ Ht].
        discriminate (Ht eq_refl). }
      rewrite app_nil_r.
      destruct (bs =? 0) eqn:Es.
      * rewrite (proj1 Hlead eq_refl). reflexivity.
      * destruct (take nb gs) eqn:Et; [|reflexivity].
        exfalso. destruct Hlead as [_ Hl].
        discriminate (Hl eq_refl).
Qed.

(* ---------- reading the parts back ---------- *)

Lemma hextet_text_hex g : 0 <= g < 2 ^ 16 -> hextet_text (hex g).
Proof. intros H. destruct (hextet_facts g H) as (? & ? & _). now split. Qed.

Lemma hextet_text_map gs :
  Forall (fun g => 0 <= g < 2 ^ 16) gs -> Forall hextet_text (map hex gs).
Proof.
  intros H. apply Forall_forall. intros p Hp.
  apply list_elem_of_In, in_map_iff in Hp as (g & <- & Hg).
  rewrite Forall_forall in H. apply hextet_text_hex, H. now apply list_elem_of_In.
Qed.

Lemma hextet_text_nonempty p : hextet_text p -> is_empty p = false.
Proof. intros [H _]. now destruct p. Qed.

Lemma hextet_text_no_dot p : hextet_text p -> contains "." p = false.
Proof. intros [_ H]. now apply (forallb_not_contains ishex). Qed.

Lemma find_skip_none l : forall i sk,
  Forall hextet_text l -> V6.find_skip i l sk = Some sk.
Proof.
  induction l as [|p l IH]; intros i sk H; [reflexivity|].
  apply Forall_cons in H as [Hp H]. cbn [V6.find_skip].
  rewrite (hextet_text_nonempty p Hp). now apply IH.
Qed.

Lemma find_skip_one l1 l2 : forall i,
  Forall hextet_text l1 -> Forall hextet_text l2 ->
  V6.find_skip i (l1 ++ "" :: l2) None = Some (Some (i + length l1)%nat).
Proof.
  induction l1 as [|p l1 IH]; intros i H1 H2.
  - cbn [app V6.find_skip is_empty length]. rewrite find_skip_none by assumption.
    now rewrite Nat.add_0_r.
  - apply Forall_cons in H1 as [Hp H1]. cbn [app V6.find_skip].
    rewrite (hextet_text_nonempty p Hp), IH by assumption.
    cbn [length]. do 2 f_equal. lia.
Qed.

(** Eight hextets, none left out. *)
Lemma parts_full ps :
  length ps = 8%nat -> Forall hextet_text ps ->
  V6.ip_int_from_parts ps = V6.parse_hextets 0 ps.
Proof.
  intros Hlen Hall. unfold V6.ip_int_from_parts. rewrite Hlen. cbn [Nat.ltb Nat.leb].
  destruct ps as [|p0 ps']; [discriminate|].
  destruct (exists_last (l := p0 :: ps') ltac:(discriminate)) as (body & q & Hq).
  assert (Hlast : V6.last_part (p0 :: ps') = q).
  { unfold V6.last_part. now rewrite Hq, last_snoc. }
  assert (Hgood_q : hextet_text q).
  { rewrite Forall_forall in Hall. apply Hall. rewrite Hq.
    apply elem_of_app. right. now apply list_elem_of_singleton. }
  assert (Hgood_p : hextet_text p0) by now apply Forall_cons in Hall as [? _].
  rewrite Hlast, (hextet_text_no_dot q Hgood_q). rewrite Hlast, Hlen.
  cbn [V6._HEXTET_COUNT Nat.add Nat.ltb Nat.leb Nat.eqb negb].
  rewrite find_skip_none.
  - change (V6.first_part (p0 :: ps')) with p0.
    now rewrite (hextet_text_nonempty p0 Hgood_p), (hextet_text_nonempty q Hgood_q).
  - rewrite Hq, removelast_last.
    destruct body as [|b body]; [constructor|].
    injection Hq as -> Hq. cbn [tail].
    apply Forall_cons in Hall as [_ Hall]. rewrite Hq in Hall.
    now apply Forall_app in Hall as [? _].
Qed.

Lemma last_part_snoc l q : V6.last_part (l ++ [q]) = q.
Proof. unfold V6.last_part. now rewrite last_snoc. Qed.

(** After the empty part is found: what is left of [ip_int_from_parts]. *)
Lemma ip_int_from_parts_skip parts skip_index :
  (3 <= length parts <= 9)%nat ->
  contains "." (V6.last_part parts) = false ->
  V6.find_skip 1 (tail (removelast parts)) None = Some (Some skip_index) ->
  V6.ip_int_from_parts parts =
    let parts_hi := skip_index in
    let parts_lo := (length parts - skip_index - 1)%nat in
    let parts_hi' :=
      if is_empty (V6.first_part parts) then (parts_hi - 1)%nat else parts_hi in
    if is_empty (V6.first_part parts) && negb (parts_hi' =? 0)%nat then None
    else
      let parts_lo' :=
        if is_empty (V6.last_part parts) then (parts_lo - 1)%nat else parts_lo in
      if is_empty (V6.last_part parts) && negb (parts_lo' =? 0)%nat then None
      else if (8 <=? parts_hi' + parts_lo')%nat then None
      else
        match V6.parse_hextets 0 (take parts_hi' parts) with
        | None => None
        | Some ip_int =>
            V6.parse_hextets
              (Z.shiftl ip_int (16 * Z.of_nat (8 - (parts_hi' + parts_lo'))))
              (drop (length parts - parts_lo') parts)
        end.
Proof.
  intros Hlen Hdot Hskip. unfold V6.ip_int_from_parts.
  replace (length parts <? 3)%nat with false by (symmetry; apply Nat.ltb_ge; lia).
  rewrite Hdot.
  replace (V6._HEXTET_COUNT + 1 <? length parts)%nat with false
    by (symmetry; apply Nat.ltb_ge; unfold V6._HEXTET_COUNT; lia).
  rewrite Hskip. reflexivity.
Qed.

Lemma parts_compressed pre post k :
  Forall hextet_text pre -> Forall hextet_text post ->
  (length pre + k + length post = 8)%nat -> (1 <= k)%nat ->
  V6.ip_int_from_parts
    ((if pre is [] then [""] else []) ++ pre
     ++ "" :: post ++ (if post is [] then [""] else []))
  = match V6.parse_hextets 0 pre with
    | None => None
    | Some ip_int => V6.parse_hextets (Z.shiftl ip_int (16 * Z.of_nat k)) post
    end.
Proof.
  intros Hpre Hpost Hsum Hk. unfold str in *.
  destruct pre as [|p0 pre']; destruct post as [|q0 post']; cbv beta iota.
  - (* only the empty part *)
    cbn [length] in Hsum. replace k with 8%nat by lia. reflexivity.
  - (* the run starts the address *)
    destruct (exists_last (l := q0 :: post') ltac:(discriminate)) as (body & q & Hq).
    rewrite Hq in *. clear Hq q0 post'.
    rewrite length_app in Hsum. cbn [length] in Hsum.
    assert (Hq : hextet_text q).
    { apply Forall_app in Hpost as [_ H]. now apply Forall_cons in H as [? _]. }
    assert (Hbody : Forall hextet_text body) by now apply Forall_app in Hpost as [? _].
    match goal with |- V6.ip_int_from_parts ?p = _ => set (parts := p) end.
    assert (Eparts : parts = ("" :: "" :: body) ++ [q]).
    { subst parts. cbn [app]. now rewrite app_nil_r. }
    clearbody parts. subst parts.
    rewrite (ip_int_from_parts_skip _ 1); unfold str.
    + rewrite last_part_snoc. change (V6.first_part _) with (@nil ascii).
      rewrite (hextet_text_nonempty q Hq). cbv zeta.
      cbn [is_empty andb negb Nat.sub Nat.eqb].
      rewrite length_app. cbn [length].
      replace (S (S (length body)) + 1 - 1 - 1)%nat with (length body + 1)%nat by lia.
      replace (8 <=? 0 + (length body + 1))%nat with false
        by (symmetry; apply Nat.leb_gt; lia).
      cbn [app take V6.parse_hextets].
      replace (S (S (length body)) + 1 - (length body + 1))%nat with 2%nat by lia.
      cbn [drop]. do 2 f_equal. lia.
    + rewrite length_app. cbn [length]. lia.
    + rewrite last_part_snoc. now apply hextet_text_no_dot.
    + rewrite removelast_last. cbn [tail].
      apply (find_skip_one [] body 1); [constructor | assumption].
  - (* the run ends the address *)
    cbn [length] in Hsum.
    assert (Hp0 : hextet_text p0) by now apply Forall_cons in Hpre as [? _].
    assert (Hpre' : Forall hextet_text pre') by now apply Forall_cons in Hpre as [_ ?].
    match goal with |- V6.ip_int_from_parts ?p = _ => set (parts := p) end.
    assert (Eparts : parts = (p0 :: pre' ++ [""]) ++ [""]).
    { subst parts. cbn [app]. now rewrite <- app_assoc. }
    clearbody parts. subst parts.
    rewrite (ip_int_from_parts_skip _ (S (length pre'))); unfold str.
    + rewrite last_part_snoc. change (V6.first_part _) with p0.
      rewrite (hextet_text_nonempty p0 Hp0). cbv zeta.
      cbn [is_empty andb negb].
      replace (length ((p0 :: pre' ++ [""]) ++ [""])) with (S (length pre') + 2)%nat
        by (cbn [app length]; rewrite !length_app; cbn [length]; lia).
      replace (S (length pre') + 2 - S (length pre') - 1 - 1)%nat with 0%nat by lia.
      cbn [Nat.eqb negb]. rewrite Nat.add_0_r.
      replace (8 <=? S (length pre'))%nat with false
        by (symmetry; apply Nat.leb_gt; lia).
      replace (take (S (length pre')) ((p0 :: pre' ++ [""]) ++ [""])) with (p0 :: pre').
      2:{ cbn [app take]. f_equal. rewrite <- app_assoc. now rewrite take_app_length. }
      destruct (V6.parse_hextets 0 (p0 :: pre')) as [ip_int|]; [|reflexivity].
      rewrite Nat.sub_0_r.
      replace (drop (S (length pre') + 2) ((p0 :: pre' ++ [""]) ++ [""])) with (@nil (list ascii)).
      2:{ symmetry. apply drop_ge. cbn [app length]. rewrite !length_app. cbn [length]. lia. }
      cbn [V6.parse_hextets]. do 3 f_equal. lia.
    + cbn [app length]. rewrite !length_app. cbn [length]. lia.
    + rewrite last_part_snoc. reflexivity.
    + rewrite removelast_last. cbn [tail].
      apply (find_skip_one pre' [] 1); [assumption | constructor].
  - (* the run is inside *)
    destruct (exists_last (l := q0 :: post') ltac:(discriminate)) as (body & q & Hq).
    rewrite Hq in *. clear Hq q0 post'.
    rewrite length_app in Hsum. cbn [length] in Hsum.
    assert (Hq : hextet_text q).
    { apply Forall_app in Hpost as [_ H]. now apply Forall_cons in H as [? _]. }
    assert (Hbody : Forall hextet_text body) by now apply Forall_app in Hpost as [? _].
    assert (Hp0 : hextet_text p0) by now apply Forall_cons in Hpre as [? _].
    assert (Hpre' : Forall hextet_text pre') by now apply Forall_cons in Hpre as [_ ?].
    match goal with |- V6.ip_int_from_parts ?p = _ => set (parts := p) end.
    assert (Eparts : parts = (p0 :: pre' ++ "" :: body) ++ [q]).
    { subst parts. cbn [app]. rewrite app_nil_r. f_equal.
      now rewrite <- app_assoc. }
    clearbody parts. subst parts.
    assert (Elen : length ((p0 :: pre' ++ "" :: body) ++ [q])
                   = (S (length pre') + 1 + (length body + 1))%nat).
    { cbn [app length]. rewrite !length_app. cbn [length]. lia. }
    rewrite (ip_int_from_parts_skip _ (S (length pre'))); unfold str.
    + rewrite last_part_snoc. change (V6.first_part _) with p0.
      rewrite (hextet_text_nonempty p0 Hp0), (hextet_text_nonempty q Hq). cbv zeta.
      cbn [is_empty andb negb]. rewrite Elen.
      replace (S (length pre') + 1 + (length body + 1) - S (length pre') - 1)%nat
        with (length body + 1)%nat by lia.
      replace (8 <=? S (length pre') + (length body + 1))%nat with false
        by (symmetry; apply Nat.leb_gt; lia).
      replace (take (S (length pre')) ((p0 :: pre' ++ "" :: body) ++ [q])) with (p0 :: pre').
      2:{ cbn [app take]. f_equal. rewrite <- app_assoc. now rewrite take_app_length. }
      destruct (V6.parse_hextets 0 (p0 :: pre')) as [ip_int|]; [|reflexivity].
      replace (drop _ ((p0 :: pre' ++ "" :: body) ++ [q])) with (body ++ [q]).
      2:{ replace (S (length pre') + 1 + (length body + 1) - (length body + 1))%nat
            with (S (length pre' + 1)) by lia.
          cbn [app drop]. rewrite <- app_assoc. rewrite drop_app_ge by lia.
          replace (length pre' + 1 - length pre')%nat with 1%nat by lia. reflexivity. }
      do 3 f_equal. lia.
    + rewrite Elen. lia.
    + rewrite last_part_snoc. now apply hextet_text_no_dot.
    + rewrite removelast_last. cbn [tail].
      apply (find_skip_one pre' body 1); assumption.
Qed.

Lemma parts_roundtrip gs :
  length gs = 8%nat -> Forall (fun g => 0 <= g < 2 ^ 16) gs ->
  V6.ip_int_from_parts (V6._compress_hextets (map hex gs))
  = Some (from_groups 16 0 gs).
Proof.
  intros Hlen Hr.
  destruct (compress_groups gs Hlen Hr) as [-> | (gpre & k & gpost & Hgs & Hk & ->)].
  - rewrite parts_full.
    + now apply parse_hextets_print.
    + now rewrite length_map.
    + now apply hextet_text_map.
  - assert (Hparts : Forall (fun g => 0 <= g < 2 ^ 16) gpre
                     /\ Forall (fun g => 0 <= g < 2 ^ 16) gpost).
    { rewrite Hgs in Hr. apply Forall_app in Hr as [? Hr].
      apply Forall_app in Hr as [_ ?]. now split. }
    destruct Hparts as [Hgpre Hgpost].
    assert (Hsum : (length (map hex gpre) + k + length (map hex gpost) = 8)%nat).
    { rewrite !length_map. rewrite Hgs in Hlen.
      rewrite !length_app, length_replicate in Hlen. lia. }
    pose proof (parts_compressed (map hex gpre) (map hex gpost) k
                  (hextet_text_map _ Hgpre) (hextet_text_map _ Hgpost) Hsum
                  ltac:(lia)) as Hpc.
    rewrite !parse_hextets_print in Hpc by assumption.
    replace (from_groups 16 0 gs)
      with (from_groups 16 (Z.shiftl (from_groups 16 0 gpre) (16 * Z.of_nat k)) gpost).
    + destruct gpre, gpost; exact Hpc.
    + rewrite Hgs, !from_groups_app, from_groups_zeros by lia. reflexivity.
Qed.

Lemma compressed_parts_text gs :
  length gs = 8%nat -> Forall (fun g => 0 <= g < 2 ^ 16) gs ->
  Forall (fun p => forallb ishex p = true) (V6._compress_hextets (map hex gs))
  /\ (2 <= length (V6._compress_hextets (map hex gs)))%nat.
Proof.
  intros Hlen Hr.
  assert (Hhex : forall l, Forall (fun g => 0 <= g < 2 ^ 16) l ->
                 Forall (fun p : str => forallb ishex p = true) (map hex l)).
  { intros l Hl. eapply Forall_impl; [apply hextet_text_map; exact Hl|].
    intros p [_ Hp]. exact Hp. }
  destruct (compress_groups gs Hlen Hr) as [-> | (gpre & k & gpost & Hgs & Hk & ->)].
  - split; [now apply Hhex | rewrite length_map; lia].
  - rewrite Hgs in Hr. apply Forall_app in Hr as [Hgpre Hr].
    apply Forall_app in Hr as [_ Hgpost].
    split.
    + apply Forall_app. split; [destruct gpre; repeat constructor|].
      apply Forall_app. split; [now apply Hhex|].
      constructor; [reflexivity|].
      apply Forall_app. split; [now apply Hhex | destruct gpost; repeat constructor].
    + rewrite !length_app. cbn [length]. rewrite !length_app, !length_map.
      destruct gpre, gpost; cbn [length]; lia.
Qed.


Lemma v6_groups ip_int :
  length (to_groups 16 8 ip_int) = 8%nat
  /\ Forall (fun g => 0 <= g < 2 ^ 16) (to_groups 16 8 ip_int).
Proof. split; [apply to_groups_length | apply to_groups_range; lia]. Qed.

Lemma v6_text_chars ip_int :
  forallb v6_char (V6._string_from_ip_int ip_int) = true.
Proof.
  unfold V6._string_from_ip_int. destruct (v6_groups ip_int) as [Hlen Hr].
  apply forallb_join; [reflexivity|].
  eapply Forall_impl; [apply (compressed_parts_text _ Hlen Hr)|].
  intros p Hp. eapply forallb_impl; [|exact Hp].
  intros c Hc. unfold v6_char. now rewrite Hc.
Qed.

Lemma v6_char_plain c :
  v6_char c = true ->
  isspace c = false /\ c <> "."%char /\ c <> "/"%char /\ c <> "%"%char.
Proof.
  destruct c as [[] [] [] [] [] [] [] []]; vm_compute; intros H;
    try discriminate H; repeat split; discriminate.
Qed.

Lemma v6_ip_int_roundtrip ip_int :
  0 <= ip_int < 2 ^ 128 ->
  V6._ip_int_from_string (V6._string_from_ip_int ip_int) = Some ip_int.
Proof.
  intros Hr. unfold V6._ip_int_from_string, V6._string_from_ip_int.
  destruct (v6_groups ip_int) as [Hlen Hg].
  destruct (compressed_parts_text _ Hlen Hg) as [Htext Hlen2].
  destruct (join ":" _) eqn:E; [now apply join_nonempty in E|].
  cbn [is_empty]. rewrite <- E. clear E.
  rewrite split_join.
  - rewrite parts_roundtrip by assumption. f_equal.
    apply from_to_groups; [lia | assumption].
  - intros E. rewrite E in Hlen2. cbn [length] in Hlen2. lia.
  - eapply Forall_impl; [exact Htext|]. intros p Hp.
    now apply (forallb_not_contains ishex).
Qed.

(* ---------- scope identifiers ---------- *)
Lemma partition_none sep s :
  contains sep s = false -> partition sep s = (s, None).
Proof.
  induction s as [|c r IH]; [reflexivity|]. cbn [contains existsb partition].
  rewrite Ascii.eqb_sym. destruct (Ascii.eqb c sep); [discriminate|].
  cbn [orb]. intros H. fold (contains sep r) in H. now rewrite (IH H).
Qed.

Lemma partition_some sep a b :
  contains sep a = false -> partition sep (a ++ sep :: b) = (a, Some b).
Proof.
  induction a as [|c r IH]; cbn [app partition].
  - now rewrite Ascii.eqb_refl.
  - cbn [contains existsb]. rewrite Ascii.eqb_sym.
    destruct (Ascii.eqb c sep); [discriminate|]. cbn [orb].
    intros H. fold (contains sep r) in H. now rewrite (IH H).
Qed.

Lemma partition_spec sep s a b :
  partition sep s = (a, b) ->
  contains sep a = false
  /\ match b with
     | None => s = a
     | Some x => s = a ++ sep :: x
     end.
Proof.
  revert a b. induction s as [|c r IH]; intros a b; cbn [partition].
  - intros [= <- <-]. now split.
  - destruct (Ascii.eqb c sep) eqn:E.
    + intros [= <- <-]. apply Ascii.eqb_eq in E. subst. now split.
    + destruct (partition sep r) as [a' b'] eqn:Ep. intros [= <- <-].
      destruct (IH a' b' eq_refl) as [Hc Hs]. split.
      * cbn [contains existsb]. rewrite Ascii.eqb_sym, E. exact Hc.
      * destruct b'; now rewrite Hs.
Qed.

Lemma pow2_le_128 e x : 0 <= e <= 128 -> 0 <= x < 2 ^ e -> 0 <= x < 2 ^ 128.
Proof.
  intros He Hx. split; [lia|].
  apply Z.lt_le_trans with (2 ^ e); [lia|]. apply Z.pow_le_mono_r; lia.
Qed.

Lemma ip_int_from_parts_range parts ip_int :
  V6.ip_int_from_parts parts = Some ip_int -> 0 <= ip_int < 2 ^ 128.
Proof.
  unfold V6.ip_int_from_parts, V6._HEXTET_COUNT.
  destruct (length parts <? 3)%nat; [discriminate|].
  destruct (if contains "." (V6.last_part parts) then _ else _) as [parts'|];
    [|discriminate].
  destruct (_ <? length parts')%nat eqn:Hmax; [discriminate|].
  apply Nat.ltb_ge in Hmax.
  destruct (V6.find_skip 1 (tail (removelast parts')) None) as [[skip|]|];
    [| |discriminate].
  - cbv zeta.
    set (hi := if is_empty (V6.first_part parts') then (skip - 1)%nat else skip).
    set (lo := if is_empty (V6.last_part parts')
               then (length parts' - skip - 1 - 1)%nat
               else (length parts' - skip - 1)%nat).
    destruct (is_empty (V6.first_part parts') && negb (hi =? 0)%nat); [discriminate|].
    destruct (is_empty (V6.last_part parts') && negb (lo =? 0)%nat); [discriminate|].
    destruct (_ <=? hi + lo)%nat eqn:Hsum; [discriminate|].
    apply Nat.leb_gt in Hsum.
    destruct (V6.parse_hextets 0 (take hi parts')) as [x|] eqn:Ehi; [|discriminate].
    intros Elo.
    apply (parse_hextets_inv _ _ _ 0) in Ehi as [Hx _]; [|lia|lia].
    rewrite Z.add_0_l in Hx.
    set (a := Z.of_nat (length (take hi parts'))) in *.
    set (s := Z.of_nat (_ - (hi + lo))) in *.
    assert (Ha : 0 <= a <= Z.of_nat hi).
    { subst a. rewrite length_take. lia. }
    apply (parse_hextets_inv _ _ _ (16 * a + 16 * s)) in Elo as [Hr _]; [|lia|].
    + eapply pow2_le_128; [|exact Hr].
      rewrite length_drop. lia.
    + rewrite Z.shiftl_mul_pow2 by lia. rewrite Z.pow_add_r by lia.
      assert (0 < 2 ^ (16 * s)) by (apply Z.pow_pos_nonneg; lia). nia.
  - destruct (negb (length parts' =? 8)%nat) eqn:Hlen; [discriminate|].
    apply negb_false_iff, Nat.eqb_eq in Hlen.
    destruct (is_empty (V6.first_part parts')); [discriminate|].
    destruct (is_empty (V6.last_part parts')); [discriminate|].
    intros E. apply (parse_hextets_inv _ _ _ 0) in E as [Hr _]; [|lia|lia].
    rewrite Hlen in Hr. exact Hr.
Qed.

Lemma v6_ip_int_from_string_inv s ip_int :
  V6._ip_int_from_string s = Some ip_int ->
  0 <= ip_int < 2 ^ 128 /\ contains ":" s = true.
Proof.
  unfold V6._ip_int_from_string. destruct (is_empty s); [discriminate|].
  intros H. split; [now apply ip_int_from_parts_range in H|].
  destruct (contains ":" s) eqn:E; [reflexivity|].
  rewrite (split_no_sep _ _ E) in H. discriminate.
Qed.

Lemma v6_of_string_inv s ip_int scope_id :
  V6.of_string s = Some (ip_int, scope_id) ->
  0 <= ip_int < 2 ^ 128 /\ contains ":" s = true /\ scope_ok scope_id.
Proof.
  unfold V6.of_string, V6._split_scope_id.
  destruct (contains "/" s) eqn:Hslash; [discriminate|].
  destruct (partition "%" s) as [addr [x|]] eqn:Ep.
  - destruct (is_empty x || contains "%" x) eqn:Hx; [discriminate|].
    destruct (V6._ip_int_from_string addr) as [ip|] eqn:E; [|discriminate].
    intros [= <- <-]. apply v6_ip_int_from_string_inv in E as [Hr Hc].
    apply partition_spec in Ep as [_ ->].
    apply orb_false_iff in Hx as [Hne Hpc].
    rewrite contains_app in Hslash. apply orb_false_iff in Hslash as [_ Hslash].
    cbn [contains existsb] in Hslash. apply orb_false_iff in Hslash as [_ Hslash].
    split; [assumption|]. split; [|now repeat split].
    rewrite contains_app, Hc. reflexivity.
  - destruct (V6._ip_int_from_string addr) as [ip|] eqn:E; [|discriminate].
    intros [= <- <-]. apply v6_ip_int_from_string_inv in E as [Hr Hc].
    apply partition_spec in Ep as [_ ->]. now repeat split.
Qed.

(** A text that reads as an IPv6 address does not read as an IPv4 one. *)
Lemma v6_text_not_v4 s r : V6.of_string s = Some r -> V4.of_string s = None.
Proof.
  destruct r as [ip sc]. intros H. apply v6_of_string_inv in H as (_ & Hc & _).
  destruct (V4.of_string s) as [a|] eqn:E; [|reflexivity].
  apply v4_parse_inv in E as [_ Hchars].
  rewrite (forallb_not_contains v4_char ":" s) in Hc by (reflexivity || assumption).
  discriminate.
Qed.

Lemma v6_of_string_roundtrip ip_int scope_id :
  0 <= ip_int < 2 ^ 128 -> scope_ok scope_id ->
  V6.of_string (to_str (IPv6Address ip_int scope_id)) = Some (ip_int, scope_id).
Proof.
  intros Hr Hsc. unfold V6.of_string, V6._split_scope_id, to_str.
  pose proof (v6_text_chars ip_int) as Hchars.
  assert (Hno : forall c, v6_char c = false ->
                contains c (V6._string_from_ip_int ip_int) = false).
  { intros c Hc. now apply (forallb_not_contains v6_char). }
  destruct scope_id as [x|].
  - destruct Hsc as (Hne & Hpc & Hslash). rewrite Hne.
    change (V6._string_from_ip_int ip_int ++ "%" ++ x)
      with (V6._string_from_ip_int ip_int ++ "%"%char :: x).
    rewrite contains_app, (Hno "/"%char eq_refl). cbn [contains existsb orb].
    fold (contains "/" x). rewrite Hslash. cbn [Ascii.eqb Bool.eqb orb].
    rewrite partition_some by now apply Hno.
    rewrite Hne, Hpc. cbn [orb]. now rewrite v6_ip_int_roundtrip.
  - rewrite (Hno "/"%char eq_refl). rewrite partition_none by now apply Hno.
    now rewrite v6_ip_int_roundtrip.
Qed.

(* ---------- strip on a text without blanks at its ends ---------- *)
Lemma rstrip_snoc s c : isspace c = false -> rstrip (s ++ [c]) = s ++ [c].
Proof.
  intros H. unfold rstrip. rewrite rev_app_distr. cbn [rev app lstrip]. rewrite H.
  change (rev (c :: rev s)) with (rev (rev s) ++ [c]). now rewrite rev_involutive.
Qed.

Lemma strip_id s c d :
  head s = Some c -> last s = Some d -> isspace c = false -> isspace d = false ->
  strip s = s.
Proof.
  intros Hh Hl Hc Hd. unfold strip.
  destruct s as [|c' r]; [discriminate|]. cbn in Hh. simplify_eq.
  cbn [lstrip]. rewrite Hc.
  apply last_Some in Hl as [l' ->]. now apply rstrip_snoc.
Qed.

Lemma isdigit_not_space c : isdigit c = true -> isspace c = false.
Proof. destruct c as [[] [] [] [] [] [] [] []]; vm_compute; congruence. Qed.

Lemma v4_char_not_space c : v4_char c = true -> isspace c = false.
Proof. destruct c as [[] [] [] [] [] [] [] []]; vm_compute; congruence. Qed.

Lemma v6_char_not_space c : v6_char c = true -> isspace c = false.
Proof. destruct c as [[] [] [] [] [] [] [] []]; vm_compute; congruence. Qed.

Lemma forallb_elem (Q : ascii -> bool) (s : str) c :
  forallb Q s = true -> c ∈ s -> Q c = true.
Proof.
  intros H Hc. rewrite forallb_forall in H. apply H.
  now apply list_elem_of_In.
Qed.

(* ---------- the text [f"{network_addr}/{prefix}"] ---------- *)
Lemma cidr_format_contains n p : contains "/" (cidr_format n p) = true.
Proof.
  unfold cidr_format. rewrite contains_app. cbn. now rewrite orb_true_r.
Qed.

Lemma cidr_format_split n p :
  contains "/" n = false -> 0 <= p <= 128 ->
  split "/" (cidr_format n p) = [n; str_of_int p].
Proof.
  intros Hn Hp. destruct (prefix_facts p Hp) as (_ & Hd & _).
  unfold cidr_format. change (n ++ "/" ++ str_of_int p) with (n ++ "/"%char :: str_of_int p).
  rewrite split_app_sep by assumption.
  rewrite split_no_sep; [reflexivity|].
  now apply (forallb_not_contains isdigit).
Qed.

Lemma cidr_format_strip n p c :
  head n = Some c -> isspace c = false -> 0 <= p <= 128 ->
  strip (cidr_format n p) = cidr_format n p.
Proof.
  intros Hh Hc Hp. destruct (prefix_facts p Hp) as (Hne & Hd & _).
  destruct (last (str_of_int p)) as [d|] eqn:El.
  - apply (strip_id _ c d); try assumption.
    + unfold cidr_format. destruct n; [discriminate|exact Hh].
    + unfold cidr_format. rewrite !last_app, El. reflexivity.
    + apply isdigit_not_space. apply (forallb_elem _ _ _ Hd).
      now apply last_Some_elem_of.
  - apply last_None in El. contradiction.
Qed.

Lemma head_forallb (Q : ascii -> bool) (s : str) :
  s <> [] -> forallb Q s = true -> exists c, head s = Some c /\ Q c = true.
Proof.
  destruct s as [|c r]; [contradiction|]. cbn. intros _ H.
  apply andb_true_iff in H as [H _]. eauto.
Qed.

(* ---------- canonical texts are read back as they are ---------- *)
Lemma validate_cidr_canonical_v4 ip_int p :
  0 <= ip_int < 2 ^ 32 -> 0 <= p <= 32 ->
  Z.land ip_int (_ip_int_from_prefix 32 p) = ip_int ->
  validate_cidr (cidr_format (V4._string_from_ip_int ip_int) p)
  = Ok (V4._string_from_ip_int ip_int, p, "inet").
Proof.
  intros Hr Hp Hm.
  pose proof (v4_text_chars ip_int) as Hchars.
  pose proof (v4_text_nonempty ip_int) as Hne.
  destruct (head_forallb _ _ Hne Hchars) as (c & Hh & Hc).
  unfold validate_cidr. cbv zeta.
  rewrite (cidr_format_strip _ _ c) by (assumption || lia || now apply v4_char_not_space).
  rewrite cidr_format_contains. cbn [negb].
  unfold ip_network, IPv4Network, _split_addr_prefix.
  rewrite cidr_format_split
    by (lia || (apply (forallb_not_contains v4_char); [reflexivity | assumption])).
  rewrite v4_roundtrip by assumption.
  unfold V4._make_netmask.
  rewrite prefix_from_prefix_string_print by (unfold V4._max_prefixlen; lia).
  unfold V4._max_prefixlen. rewrite Hm, Z.eqb_refl. reflexivity.
Qed.

Lemma v6_text_head ip_int scope_id :
  0 <= ip_int < 2 ^ 128 ->
  exists c, head (to_str (IPv6Address ip_int scope_id)) = Some c /\ isspace c = false.
Proof.
  intros Hr. pose proof (v6_text_chars ip_int) as Hchars.
  pose proof (v6_ip_int_roundtrip ip_int Hr) as Hrt.
  assert (Hne : V6._string_from_ip_int ip_int <> []).
  { intros E. rewrite E in Hrt. discriminate. }
  destruct (head_forallb _ _ Hne Hchars) as (c & Hh & Hc).
  exists c. split; [|now apply v6_char_not_space].
  unfold to_str. destruct (V6._string_from_ip_int ip_int); [discriminate|].
  destruct scope_id as [x|]; [destruct (is_empty x)|]; exact Hh.
Qed.

Lemma validate_cidr_canonical_v6 ip_int scope_id p :
  0 <= ip_int < 2 ^ 128 -> scope_ok scope_id -> 0 <= p <= 128 ->
  Z.land ip_int (_ip_int_from_prefix 128 p) = ip_int ->
  validate_cidr (cidr_format (to_str (IPv6Address ip_int scope_id)) p)
  = Ok (to_str (IPv6Address ip_int scope_id), p, "inet6").
Proof.
  intros Hr Hsc Hp Hm.
  pose proof (v6_of_string_roundtrip ip_int scope_id Hr Hsc) as Hrt.
  pose proof (v6_text_not_v4 _ _ Hrt) as Hv4.
  destruct (v6_text_head ip_int scope_id Hr) as (c & Hh & Hc).
  assert (Hslash : contains "/" (to_str (IPv6Address ip_int scope_id)) = false).
  { unfold V6.of_string in Hrt. destruct (contains "/" _); [discriminate|reflexivity]. }
  unfold validate_cidr. cbv zeta.
  rewrite (cidr_format_strip _ _ c) by (assumption || lia).
  rewrite cidr_format_contains. cbn [negb].
  unfold ip_network, IPv4Network, IPv6Network, _split_addr_prefix.
  rewrite cidr_format_split by (assumption || lia).
  rewrite Hv4, Hrt.
  unfold V6._make_netmask.
  rewrite prefix_from_prefix_string_print by (unfold V6._max_prefixlen; lia).
  unfold V6._max_prefixlen. rewrite Hm, Z.eqb_refl. reflexivity.
Qed.
(* ---------- what the network constructors build ---------- *)
Lemma land_full_mask mx a :
  0 <= mx -> 0 <= a < 2 ^ mx -> Z.land a (_ip_int_from_prefix mx mx) = a.
Proof.
  intros Hmx Ha. apply Z.bits_inj'. intros i Hi.
  rewrite land_netmask_testbit by lia.
  replace (mx - mx <=? i) with true by (symmetry; apply Z.leb_le; lia).
  apply andb_true_r.
Qed.

Lemma split_single sep s a : split sep s = [a] -> contains sep s = false.
Proof.
  revert a. induction s as [|c r IH]; intros a; [reflexivity|].
  cbn [split contains existsb]. fold (contains sep r). rewrite (Ascii.eqb_sym sep c).
  destruct (Ascii.eqb c sep).
  - intros H. assert (H' : split sep r = []) by congruence.
    now apply split_nonempty in H'.
  - destruct (split sep r) as [|f fs] eqn:E; [now apply split_nonempty in E|].
    intros H. assert (fs = []) as -> by congruence. cbn [orb]. now apply (IH f).
Qed.

Lemma split_addr_prefix_inv mx s addr mask :
  _split_addr_prefix mx s = Some (addr, mask) ->
  (contains "/" s = false /\ addr = s /\ mask = MaskInt mx)
  \/ (exists m, split "/" s = [addr; m] /\ mask = MaskStr m).
Proof.
  unfold _split_addr_prefix.
  destruct (split "/" s) as [|a [|m [|? ?]]] eqn:E; intros H; simplify_eq.
  - left. pose proof (split_single _ _ _ E) as Hc.
    rewrite (split_no_sep _ _ Hc) in E. now simplify_eq.
  - right. eauto.
Qed.

Lemma IPv4Network_inv s n :
  IPv4Network s false = Built n ->
  exists addr mask packed p,
    _split_addr_prefix 32 s = Some (addr, mask)
    /\ V4.of_string addr = Some packed
    /\ V4._make_netmask mask = Some (_ip_int_from_prefix 32 p, p)
    /\ 0 <= p <= 32
    /\ n = Network (IPv4Address (Z.land packed (_ip_int_from_prefix 32 p))) p.
Proof.
  unfold IPv4Network, V4._max_prefixlen.
  destruct (_split_addr_prefix 32 s) as [[addr mask]|]; [|discriminate].
  destruct (V4.of_string addr) as [packed|] eqn:Ea; [|discriminate].
  destruct (V4._make_netmask mask) as [[netmask p]|] eqn:Em; [|discriminate].
  destruct (v4_make_netmask_inv _ _ _ Em) as [Hp ->].
  destruct (Z.land packed _ =? packed) eqn:Eq; cbn [negb]; intros [= <-];
    exists addr, mask, packed, p; repeat split; try assumption; try lia.
  apply Z.eqb_eq in Eq. now rewrite Eq.
Qed.

Lemma IPv6Network_inv s n :
  IPv6Network s false = Built n ->
  exists addr mask packed scope_id p,
    _split_addr_prefix 128 s = Some (addr, mask)
    /\ V6.of_string addr = Some (packed, scope_id)
    /\ V6._make_netmask mask = Some (_ip_int_from_prefix 128 p, p)
    /\ 0 <= p <= 128
    /\ n = Network
             (IPv6Address (Z.land packed (_ip_int_from_prefix 128 p))
                (if Z.land packed (_ip_int_from_prefix 128 p) =? packed
                 then scope_id else None)) p.
Proof.
  unfold IPv6Network, V6._max_prefixlen.
  destruct (_split_addr_prefix 128 s) as [[addr mask]|]; [|discriminate].
  destruct (V6.of_string addr) as [[packed scope_id]|] eqn:Ea; [|discriminate].
  destruct (V6._make_netmask mask) as [[netmask p]|] eqn:Em; [|discriminate].
  destruct (v6_make_netmask_inv _ _ _ Em) as [Hp ->].
  destruct (Z.land packed _ =? packed) eqn:Eq; cbn [negb]; intros [= <-];
    exists addr, mask, packed, scope_id, p; rewrite Eq;
    repeat split; try assumption; try lia.
  apply Z.eqb_eq in Eq. now rewrite Eq.
Qed.

Lemma ip_network_inv s n :
  ip_network s false = Value n ->
  IPv4Network s false = Built n
  \/ (IPv4Network s false = AddressOrNetmaskError /\ IPv6Network s false = Built n).
Proof.
  unfold ip_network.
  destruct (IPv4Network s false); [intros [= ->]; now left | | discriminate].
  destruct (IPv6Network s false); [intros [= ->]; now right | discriminate..].
Qed.

(** What [validate_cidr] returns: the text of an address of one family that
    has no bit set beyond the prefix. *)
Lemma validate_cidr_inv cidr n p f :
  validate_cidr cidr = Ok (n, p, f) ->
  (exists ip_int,
      0 <= ip_int < 2 ^ 32 /\ 0 <= p <= 32
      /\ Z.land ip_int (_ip_int_from_prefix 32 p) = ip_int
      /\ n = V4._string_from_ip_int ip_int /\ f = "inet")
  \/ (exists ip_int scope_id,
      0 <= ip_int < 2 ^ 128 /\ scope_ok scope_id /\ 0 <= p <= 128
      /\ Z.land ip_int (_ip_int_from_prefix 128 p) = ip_int
      /\ n = to_str (IPv6Address ip_int scope_id) /\ f = "inet6").
Proof.
  unfold validate_cidr. cbv zeta.
  destruct (contains "/" (strip cidr)); cbn [negb].
  - destruct (ip_network (strip cidr) false) as [nw|] eqn:E; [|discriminate].
    apply ip_network_inv in E as [E | [_ E]].
    + apply IPv4Network_inv in E as (addr & mask & packed & q & _ & Ea & _ & Hq & ->).
      cbn [network_address prefixlen version Z.eqb Pos.eqb]. remember (to_str _) as t eqn:Et. intros [= <- <- <-]. subst t. left.
      apply v4_parse_inv in Ea as [Hr _].
      exists (Z.land packed (_ip_int_from_prefix 32 q)).
      repeat split; try lia; try apply land_netmask_range; try assumption.
      apply land_netmask_idem.
    + apply IPv6Network_inv in E
        as (addr & mask & packed & sc & q & _ & Ea & _ & Hq & ->).
      cbn [network_address prefixlen version Z.eqb Pos.eqb]. remember (to_str _) as t eqn:Et. intros [= <- <- <-]. subst t. right.
      apply v6_of_string_inv in Ea as (Hr & _ & Hsc).
      exists (Z.land packed (_ip_int_from_prefix 128 q)),
        (if Z.land packed (_ip_int_from_prefix 128 q) =? packed then sc else None).
      repeat split; try lia; try apply land_netmask_range; try assumption.
      * now destruct (_ =? _).
      * apply land_netmask_idem.
  - unfold ip_address.
    destruct (V4.of_string (strip cidr)) as [ip|] eqn:E4.
    + cbn [version Z.eqb Pos.eqb]. remember (to_str _) as t eqn:Et. intros [= <- <- <-]. subst t. left. apply v4_parse_inv in E4 as [Hr _].
      exists ip. repeat split; try lia. apply land_full_mask; lia.
    + destruct (V6.of_string (strip cidr)) as [[ip sc]|] eqn:E6; [|discriminate].
      cbn [network_address prefixlen version Z.eqb Pos.eqb]. remember (to_str _) as t eqn:Et. intros [= <- <- <-]. subst t. right. apply v6_of_string_inv in E6 as (Hr & _ & Hsc).
      exists ip, sc. repeat split; try lia; try assumption. apply land_full_mask; lia.
Qed.

Lemma v4_digits_not_address s :
  forallb isdigit s = true -> V4._ip_int_from_string s = None.
Proof.
  intros Hd. unfold V4._ip_int_from_string. destruct (is_empty s); [reflexivity|].
  rewrite split_no_sep; [reflexivity|]. now apply (forallb_not_contains isdigit).
Qed.

Lemma v4_make_netmask_digits m netmask p :
  V4._make_netmask (MaskStr m) = Some (netmask, p) ->
  ascii_digits m = true -> p = int_of_digits m.
Proof.
  unfold V4._make_netmask, _prefix_from_prefix_string, _prefix_from_ip_string.
  intros H Hd. rewrite Hd in H. cbn [negb] in H.
  rewrite (v4_digits_not_address m) in H by now apply ascii_digits_forallb.
  destruct (negb _); simplify_eq. reflexivity.
Qed.

Lemma v6_make_netmask_digits m netmask p :
  V6._make_netmask (MaskStr m) = Some (netmask, p) ->
  ascii_digits m = true -> p = int_of_digits m.
Proof.
  unfold V6._make_netmask, _prefix_from_prefix_string.
  intros H Hd. rewrite Hd in H. cbn [negb] in H.
  destruct (negb _); simplify_eq. reflexivity.
Qed.

(* ---------- a text with an address and a prefix is accepted ---------- *)
Lemma prefix_from_prefix_string_digits mx m :
  ascii_digits m = true -> int_of_digits m <= mx ->
  _prefix_from_prefix_string mx m = Some (int_of_digits m).
Proof.
  intros Hd Hle. unfold _prefix_from_prefix_string. rewrite Hd. cbn [negb].
  pose proof (int_of_digits_nonneg m (ascii_digits_forallb m Hd)) as H0.
  replace ((0 <=? int_of_digits m) && (int_of_digits m <=? mx)) with true; [reflexivity|].
  symmetry. apply andb_true_iff. split; apply Z.leb_le; lia.
Qed.

Lemma split_pair_contains sep s a b : split sep s = [a; b] -> contains sep s = true.
Proof.
  intros H. destruct (contains sep s) eqn:E; [reflexivity|].
  rewrite (split_no_sep _ _ E) in H. discriminate.
Qed.

Lemma validate_cidr_accepts cidr addr_text mask_text family addr_int :
  split "/" (strip cidr) = [addr_text; mask_text] ->
  address_value addr_text = Some (family, addr_int) ->
  ascii_digits mask_text = true ->
  int_of_digits mask_text <= family_bits family ->
  exists network_addr,
    validate_cidr cidr = Ok (network_addr, int_of_digits mask_text, family)
    /\ address_value network_addr
       = Some (family,
               Z.land addr_int
                 (_ip_int_from_prefix (family_bits family) (int_of_digits mask_text)))
    /\ 0 <= int_of_digits mask_text
    /\ 0 <= addr_int < 2 ^ family_bits family.
Proof.
  intros Hsp Hav Hd Hle.
  pose proof (int_of_digits_nonneg mask_text (ascii_digits_forallb _ Hd)) as H0.
  set (p := int_of_digits mask_text) in *.
  unfold validate_cidr. cbv zeta.
  rewrite (split_pair_contains _ _ _ _ Hsp). cbn [negb].
  unfold ip_network, IPv4Network, IPv6Network, _split_addr_prefix. rewrite Hsp.
  unfold address_value, ip_address in Hav.
  destruct (V4.of_string addr_text) as [ip|] eqn:E4.
  - injection Hav as <- <-. change (family_bits "inet") with 32 in *.
    pose proof (v4_parse_inv _ _ E4) as [Hr _].
    unfold V4._make_netmask.
    rewrite (prefix_from_prefix_string_digits V4._max_prefixlen mask_text Hd Hle).
    fold p. unfold V4._max_prefixlen.
    pose proof (land_netmask_range 32 p ip ltac:(lia) Hr) as Hr'.
    exists (V4._string_from_ip_int (Z.land ip (_ip_int_from_prefix 32 p))).
    split; [|split; [|split; assumption]].
    + destruct (Z.land ip (_ip_int_from_prefix 32 p) =? ip) eqn:Eq; cbn [negb].
      * apply Z.eqb_eq in Eq. rewrite Eq. reflexivity.
      * reflexivity.
    + unfold address_value, ip_address. now rewrite v4_roundtrip.
  - destruct (V6.of_string addr_text) as [[ip sc]|] eqn:E6; [|discriminate].
    injection Hav as <- <-. change (family_bits "inet6") with 128 in *.
    pose proof (v6_of_string_inv _ _ _ E6) as (Hr & _ & Hsc).
    unfold V6._make_netmask.
    rewrite (prefix_from_prefix_string_digits V6._max_prefixlen mask_text Hd Hle).
    fold p. unfold V6._max_prefixlen.
    pose proof (land_netmask_range 128 p ip ltac:(lia) Hr) as Hr'.
    set (sc' := if Z.land ip (_ip_int_from_prefix 128 p) =? ip then sc else None).
    assert (Hsc' : scope_ok sc') by (subst sc'; now destruct (_ =? _)).
    pose proof (v6_of_string_roundtrip _ sc' Hr' Hsc') as Hrt.
    exists (to_str (IPv6Address (Z.land ip (_ip_int_from_prefix 128 p)) sc')).
    split; [|split; [|split; assumption]].
    + subst sc'. remember (to_str _) as t eqn:Et.
      destruct (Z.land ip (_ip_int_from_prefix 128 p) =? ip) eqn:Eq; cbn [negb].
      * apply Z.eqb_eq in Eq. cbn [network_address prefixlen version Z.eqb Pos.eqb].
        subst t. rewrite Eq. reflexivity.
      * cbn [network_address prefixlen version Z.eqb Pos.eqb]. subst t. reflexivity.
    + unfold address_value, ip_address.
      now rewrite (v6_text_not_v4 _ _ Hrt), Hrt.
Qed.

(** What an accepted text with a slash was made of. *)
Lemma validate_cidr_slash_inv cidr network_addr prefix family :
  contains "/" (strip cidr) = true ->
  validate_cidr cidr = Ok (network_addr, prefix, family) ->
  exists addr_text mask_text addr_int net_int,
    split "/" (strip cidr) = [addr_text; mask_text]
    /\ (family = "inet" \/ family = "inet6")
    /\ 0 <= prefix <= family_bits family
    /\ (ascii_digits mask_text = true -> prefix = int_of_digits mask_text)
    /\ address_value addr_text = Some (family, addr_int)
    /\ address_value network_addr = Some (family, net_int)
    /\ (forall i, 0 <= i ->
          Z.testbit net_int i
          = Z.testbit addr_int i && (family_bits family - prefix <=? i)).
Proof.
  revert network_addr prefix family. intros n p f Hs H. unfold validate_cidr in H. cbv zeta in H.
  rewrite Hs in H. cbn [negb] in H.
  destruct (ip_network (strip cidr) false) as [nw|] eqn:E; [|discriminate].
  apply ip_network_inv in E as [E | [_ E]].
  - apply IPv4Network_inv in E as (addr & mask & packed & q & Hsp & Ea & Em & Hq & ->).
    cbn [network_address prefixlen version Z.eqb Pos.eqb] in H.
    remember (to_str _) as t eqn:Et. injection H as <- <- <-. subst t.
    apply split_addr_prefix_inv in Hsp as [[Hc _] | (m & Hsp & ->)]; [congruence|].
    pose proof (v4_parse_inv _ _ Ea) as [Hr _].
    exists addr, m, packed, (Z.land packed (_ip_int_from_prefix 32 q)).
    change (family_bits "inet") with 32.
    split; [assumption|]. split; [now left|]. split; [assumption|].
    split; [now apply (v4_make_netmask_digits _ _ _ Em)|].
    split; [unfold address_value, ip_address; now rewrite Ea|].
    split.
    + unfold address_value, ip_address, to_str.
      rewrite v4_roundtrip; [reflexivity|]. now apply land_netmask_range.
    + intros i Hi. now apply land_netmask_testbit.
  - apply IPv6Network_inv in E
      as (addr & mask & packed & sc & q & Hsp & Ea & Em & Hq & ->).
    cbn [network_address prefixlen version Z.eqb Pos.eqb] in H.
    remember (to_str _) as t eqn:Et. injection H as <- <- <-. subst t.
    apply split_addr_prefix_inv in Hsp as [[Hc _] | (m & Hsp & ->)]; [congruence|].
    pose proof (v6_of_string_inv _ _ _ Ea) as (Hr & _ & Hsc).
    exists addr, m, packed, (Z.land packed (_ip_int_from_prefix 128 q)).
    change (family_bits "inet6") with 128.
    split; [assumption|]. split; [now right|]. split; [assumption|].
    split; [now apply (v6_make_netmask_digits _ _ _ Em)|].
    split.
    { unfold address_value, ip_address.
      now rewrite (v6_text_not_v4 _ _ Ea), Ea. }
    split.
    + set (sc' := if _ =? packed then sc else None).
      assert (Hsc' : scope_ok sc') by (subst sc'; now destruct (_ =? _)).
      pose proof (land_netmask_range 128 q packed Hq Hr) as Hr'.
      pose proof (v6_of_string_roundtrip _ sc' Hr' Hsc') as Hrt.
      unfold address_value, ip_address.
      now rewrite (v6_text_not_v4 _ _ Hrt), Hrt.
    + intros i Hi. now apply land_netmask_testbit.
Qed.

(** C2: let a text, once stripped, be an address text, a slash and a prefix
    written in digits that is not above the width of the address's family.
    Then [validate_cidr] accepts it, whether or not the address has bits set
    beyond the prefix, and returns that prefix, that family and a network
    address that reads back as the input address with every bit beyond the
    prefix cleared and every bit within it kept. Conversely whatever
    [validate_cidr] returns for a text with a slash is of that form: the
    text splits at its slash into an address text and a mask text, the
    returned prefix lies within the family's width, and the returned
    network address is the input address masked to it. In particular
    ["192.168.1.100/24"] gives ["192.168.1.0"], 24 and the family [inet]. *)
Theorem validate_cidr_masks_host_bits :
  (forall cidr addr_text mask_text family addr_int,
      split "/" (strip cidr) = [addr_text; mask_text] ->
      address_value addr_text = Some (family, addr_int) ->
      ascii_digits mask_text = true ->
      int_of_digits mask_text <= family_bits family ->
      exists network_addr net_int,
        validate_cidr cidr = Ok (network_addr, int_of_digits mask_text, family)
        /\ address_value network_addr = Some (family, net_int)
        /\ (forall i, 0 <= i ->
              Z.testbit net_int i
              = Z.testbit addr_int i
                && (family_bits family - int_of_digits mask_text <=? i)))
  /\ (forall cidr network_addr prefix family,
      contains "/" (strip cidr) = true ->
      validate_cidr cidr = Ok (network_addr, prefix, family) ->
      exists addr_text mask_text addr_int net_int,
        split "/" (strip cidr) = [addr_text; mask_text]
        /\ (family = "inet" \/ family = "inet6")
        /\ 0 <= prefix <= family_bits family
        /\ (ascii_digits mask_text = true -> prefix = int_of_digits mask_text)
        /\ address_value addr_text = Some (family, addr_int)
        /\ address_value network_addr = Some (family, net_int)
        /\ (forall i, 0 <= i ->
              Z.testbit net_int i
              = Z.testbit addr_int i && (family_bits family - prefix <=? i)))
  /\ validate_cidr "192.168.1.100/24" = Ok ("192.168.1.0", 24, "inet").
Proof.
  split; [|split; [exact validate_cidr_slash_inv | vm_compute; reflexivity]].
  intros cidr addr_text mask_text family addr_int Hsp Hav Hd Hle.
  destruct (validate_cidr_accepts _ _ _ _ _ Hsp Hav Hd Hle)
    as (network_addr & Hok & Hnet & H0 & Hr).
  exists network_addr. eexists. split; [exact Hok|]. split; [exact Hnet|].
  intros i Hi. apply land_netmask_testbit; [lia | assumption | assumption].
Qed.

Lemma validate_cidr_masks_host_bits_witness :
  exists network_addr net_int,
    validate_cidr " 192.168.1.100/24 " = Ok (network_addr, int_of_digits "24", "inet")
    /\ address_value network_addr = Some ("inet", net_int)
    /\ (forall i, 0 <= i ->
          Z.testbit net_int i
          = Z.testbit 3232235876 i && (family_bits "inet" - int_of_digits "24" <=? i)).
Proof.
  apply (proj1 validate_cidr_masks_host_bits " 192.168.1.100/24 " "192.168.1.100" "24"
           "inet" 3232235876); vm_compute; try reflexivity. discriminate.
Defined.

(** C8: when [validate_cidr] accepts a text and returns a network address, a
    prefix length and a family, the rendering [f"{network_addr}/{prefix}"]
    of that result is accepted again and gives the same three values, for
    IPv4 and for IPv6 (scoped addresses included). *)
Theorem validate_cidr_idempotent x network_addr prefix family :
  validate_cidr x = Ok (network_addr, prefix, family) ->
  validate_cidr (cidr_format network_addr prefix) = Ok (network_addr, prefix, family).
Proof.
  intros H. apply validate_cidr_inv in H
    as [(ip & Hr & Hp & Hm & -> & ->) | (ip & sc & Hr & Hsc & Hp & Hm & -> & ->)].
  - now apply validate_cidr_canonical_v4.
  - now apply validate_cidr_canonical_v6.
Qed.

Lemma validate_cidr_idempotent_witness :
  validate_cidr (cidr_format "192.168.1.0" 24) = Ok ("192.168.1.0", 24, "inet")
  /\ validate_cidr (cidr_format "2001:db8::" 32) = Ok ("2001:db8::", 32, "inet6").
Proof.
  split.
  - apply (validate_cidr_idempotent "192.168.1.100/24"). vm_compute. reflexivity.
  - apply (validate_cidr_idempotent " 2001:DB8:0:0::1/32 "). vm_compute. reflexivity.
Defined.

(* ================================================================== *)
(** * The tokens of a line and their canonical forms *)
(* ================================================================== *)

(* ---------- trimming ---------- *)
Lemma lstrip_idem s : lstrip (lstrip s) = lstrip s.
Proof.
  induction s as [|c r IH]; [reflexivity|]. cbn [lstrip].
  destruct (isspace c) eqn:E; [assumption|]. cbn [lstrip]. now rewrite E.
Qed.

Lemma lstrip_head s : match lstrip s with [] => True | c :: _ => isspace c = false end.
Proof.
  induction s as [|c r IH]; [exact I|]. cbn [lstrip].
  destruct (isspace c) eqn:E; [assumption|exact E].
Qed.

Lemma lstrip_snoc a c :
  lstrip (a ++ [c])
  = if is_empty (lstrip a) then (if isspace c then [] else [c]) else lstrip a ++ [c].
Proof.
  induction a as [|x a IH]; cbn [app lstrip].
  - now destruct (isspace c).
  - destruct (isspace x); [assumption|reflexivity].
Qed.

Lemma rstrip_cons c r :
  rstrip (c :: r) = if isspace c && is_empty (rstrip r) then [] else c :: rstrip r.
Proof.
  unfold rstrip. cbn [rev]. rewrite lstrip_snoc.
  destruct (lstrip (rev r)) as [|x l] eqn:E.
  - cbn [is_empty rev]. destruct (isspace c); reflexivity.
  - assert (Hne : is_empty (rev (x :: l)) = false)
      by (cbn [rev]; destruct (rev l); reflexivity).
    rewrite Hne, andb_false_r. cbn [is_empty]. rewrite rev_app_distr. reflexivity.
Qed.

Lemma rstrip_nil : rstrip [] = [].
Proof. reflexivity. Qed.

Lemma rstrip_idem s : rstrip (rstrip s) = rstrip s.
Proof. unfold rstrip. now rewrite rev_involutive, lstrip_idem. Qed.

Lemma lstrip_rstrip_lstrip s : lstrip (rstrip (lstrip s)) = rstrip (lstrip s).
Proof.
  pose proof (lstrip_head s) as H. destruct (lstrip s) as [|c r]; [reflexivity|].
  rewrite rstrip_cons, H. cbn [andb lstrip]. now rewrite H.
Qed.

Lemma strip_idem s : strip (strip s) = strip s.
Proof. unfold strip. now rewrite lstrip_rstrip_lstrip, rstrip_idem. Qed.

Lemma strip_head s : match strip s with [] => True | c :: _ => isspace c = false end.
Proof.
  unfold strip. pose proof (lstrip_head s) as H.
  destruct (lstrip s) as [|c r]; [exact I|].
  rewrite rstrip_cons, H. exact H.
Qed.

Lemma strip_cons_nonspace c r : isspace c = false -> strip (c :: r) = c :: rstrip r.
Proof. intros H. unfold strip. cbn [lstrip]. rewrite H, rstrip_cons, H. reflexivity. Qed.

(* ---------- the text before a marker ---------- *)
Lemma before_head_split c s : default [] (head (split c s)) = before (fun x => Ascii.eqb x c) s.
Proof.
  induction s as [|x r IH]; [reflexivity|]. cbn [split before].
  destruct (Ascii.eqb x c); [reflexivity|].
  destruct (split c r) as [|f fs] eqn:E; [now apply split_nonempty in E|].
  cbn in *. now rewrite IH.
Qed.

Lemma before_all stop s : existsb stop s = false -> before stop s = s.
Proof.
  induction s as [|c r IH]; [reflexivity|]. cbn [existsb before].
  destruct (stop c); [discriminate|]. cbn [orb]. intros H. now rewrite IH.
Qed.

Lemma before_ext (f g : ascii -> bool) s :
  (forall c, c ∈ s -> f c = g c) -> before f s = before g s.
Proof.
  induction s as [|c r IH]; intros H; [reflexivity|]. cbn [before].
  rewrite <- (H c) by left. destruct (f c); [reflexivity|].
  rewrite IH; [reflexivity|]. intros x Hx. apply H. now right.
Qed.

Lemma before_before (f g : ascii -> bool) s :
  before g (before f s) = before (fun c => f c || g c) s.
Proof.
  induction s as [|c r IH]; [reflexivity|]. cbn [before].
  destruct (f c); cbn [orb before]; [reflexivity|].
  destruct (g c); [reflexivity|]. now rewrite IH.
Qed.

Lemma before_lstrip stop s :
  (forall c, stop c = true -> isspace c = false) ->
  before stop (lstrip s) = lstrip (before stop s).
Proof.
  intros Hstop. induction s as [|c r IH]; [reflexivity|]. cbn [lstrip before].
  destruct (isspace c) eqn:Es.
  - destruct (stop c) eqn:Ec; [apply Hstop in Ec; congruence|].
    cbn [lstrip]. now rewrite Es.
  - cbn [before]. destruct (stop c); [reflexivity|]. cbn [lstrip]. now rewrite Es.
Qed.

Lemma rstrip_before_rstrip stop s :
  (forall c, stop c = true -> isspace c = false) ->
  rstrip (before stop (rstrip s)) = rstrip (before stop s).
Proof.
  intros Hstop. induction s as [|c r IH]; [reflexivity|].
  rewrite rstrip_cons. cbn [before].
  destruct (stop c) eqn:Ec.
  - rewrite (Hstop c Ec). cbn [andb before]. now rewrite Ec.
  - rewrite (rstrip_cons c (before stop r)), <- IH.
    destruct (isspace c && is_empty (rstrip r)) eqn:E.
    + apply andb_true_iff in E as [E1 E2]. destruct (rstrip r); [|discriminate].
      cbn [before]. rewrite rstrip_nil, E1. reflexivity.
    + cbn [before]. rewrite Ec, rstrip_cons. reflexivity.
Qed.

Lemma strip_before_strip stop s :
  (forall c, stop c = true -> isspace c = false) ->
  strip (before stop (strip s)) = strip (before stop s).
Proof.
  intros Hstop. unfold strip.
  rewrite <- (before_lstrip stop (rstrip (lstrip s))) by assumption.
  rewrite lstrip_rstrip_lstrip, rstrip_before_rstrip by assumption.
  now rewrite before_lstrip.
Qed.

Lemma contains_lstrip c s : isspace c = false -> contains c (lstrip s) = contains c s.
Proof.
  intros Hc. induction s as [|x r IH]; [reflexivity|]. cbn [lstrip].
  destruct (isspace x) eqn:Ex; [|reflexivity].
  rewrite IH. cbn [contains existsb]. destruct (Ascii.eqb_spec c x) as [->|]; [congruence|].
  reflexivity.
Qed.

Lemma contains_rev c s : contains c (rev s) = contains c s.
Proof.
  induction s as [|x r IH]; [reflexivity|]. cbn [rev].
  rewrite contains_app, IH. cbn [contains existsb]. rewrite orb_false_r. apply orb_comm.
Qed.

Lemma contains_strip c s : isspace c = false -> contains c (strip s) = contains c s.
Proof.
  intros Hc. unfold strip, rstrip.
  now rewrite contains_rev, contains_lstrip, contains_rev, contains_lstrip.
Qed.

Lemma contains_before_self c s : contains c (before (fun x => Ascii.eqb x c) s) = false.
Proof.
  induction s as [|x r IH]; [reflexivity|]. cbn [before].
  destruct (Ascii.eqb x c) eqn:E; [reflexivity|].
  cbn [contains existsb]. rewrite Ascii.eqb_sym, E. exact IH.
Qed.

Lemma contains_existsb c s : contains c s = existsb (fun x => Ascii.eqb x c) s.
Proof.
  induction s as [|x r IH]; [reflexivity|]. cbn [contains existsb].
  fold (contains c r). now rewrite IH, Ascii.eqb_sym.
Qed.

(** The two rounds of [cut_comment] on a trimmed line. *)
Lemma cut_comments_spec s :
  strip s = s ->
  fold_left cut_comment COMMENT_CHARS s = strip (before is_comment s).
Proof.
  intros Hs. cbn [fold_left COMMENT_CHARS]. unfold cut_comment at 2.
  rewrite before_head_split.
  assert (Hsp : forall c : ascii, (c = "#" \/ c = ";")%char -> isspace c = false).
  { intros c [-> | ->]; reflexivity. }
  assert (Hstop : forall m : ascii, (m = "#" \/ m = ";")%char ->
             forall c, Ascii.eqb c m = true -> isspace c = false).
  { intros m Hm c Hc. apply Ascii.eqb_eq in Hc. subst. now apply Hsp. }
  assert (Hboth : forall x, before (fun c => Ascii.eqb c ";") (before (fun c => Ascii.eqb c "#") x)
                            = before is_comment x).
  { intros x. rewrite before_before. reflexivity. }
  destruct (contains "#" s) eqn:E1.
  - unfold cut_comment. rewrite before_head_split.
    rewrite contains_strip by reflexivity.
    destruct (contains ";" (before (fun x => Ascii.eqb x "#") s)) eqn:E2.
    + rewrite strip_before_strip by (apply Hstop; now right). now rewrite Hboth.
    + rewrite <- Hboth. rewrite (before_all (fun c => Ascii.eqb c ";")); [reflexivity|].
      now rewrite <- contains_existsb.
  - unfold cut_comment. rewrite before_head_split.
    assert (H1 : before (fun c => Ascii.eqb c "#") s = s).
    { apply before_all. now rewrite <- contains_existsb. }
    destruct (contains ";" s) eqn:E2.
    + rewrite <- Hboth, H1. reflexivity.
    + rewrite <- Hboth, H1. rewrite before_all; [now rewrite Hs|].
      now rewrite <- contains_existsb.
Qed.

(* ---------- the pieces between runs of separators ---------- *)
Lemma split_runs_sepfree sep s : forall b,
  Forall (fun p => forallb (fun c => negb (sep c)) p = true) (split_runs sep b s).
Proof.
  induction s as [|c r IH]; intros b; cbn [split_runs].
  - repeat constructor.
  - destruct (sep c) eqn:E.
    + destruct b; [apply IH | constructor; [reflexivity | apply IH]].
    + specialize (IH false). destruct (split_runs sep false r) as [|f fs].
      * repeat constructor. cbn. now rewrite E.
      * apply Forall_cons in IH as [Hf Hfs]. constructor; [|assumption].
        cbn [forallb]. now rewrite E, Hf.
Qed.

Lemma laid_out_prepend gap tokens text :
  forallb is_sep gap = true -> laid_out tokens text -> laid_out tokens (gap ++ text).
Proof.
  intros Hg H. destruct H as [g Hgap | g t ts rest Hgap Hne Ht Hb Hrest].
  - constructor. now rewrite forallb_app, Hg, Hgap.
  - rewrite app_assoc. constructor; try assumption.
    now rewrite forallb_app, Hg, Hgap.
Qed.

Lemma split_runs_layout s : forall b,
  exists g f fs rest,
    split_runs is_sep b s = f :: fs
    /\ s = g ++ f ++ rest
    /\ forallb is_sep g = true
    /\ (b = false -> g = [])
    /\ forallb (fun c => negb (is_sep c)) f = true
    /\ at_boundary rest
    /\ laid_out (List.filter (fun p => negb (is_empty p)) fs) rest.
Proof.
  induction s as [|c r IH]; intros b.
  - exists [], [], [], []. repeat split; try reflexivity. now constructor.
  - cbn [split_runs]. destruct (is_sep c) eqn:E.
    + destruct (IH true) as (g & f & fs & rest & Hsp & -> & Hg & _ & Hf & Hb & Hl).
      destruct b.
      * exists (c :: g), f, fs, rest. rewrite Hsp. repeat split; try assumption.
        -- cbn [forallb]. now rewrite E, Hg.
        -- discriminate.
      * exists [], [], (f :: fs), (c :: g ++ f ++ rest). rewrite Hsp.
        repeat split; try reflexivity; [exact E|].
        cbn [List.filter]. destruct f as [|x f]; cbn [is_empty negb].
        -- apply (laid_out_prepend (c :: g)); [cbn [forallb]; now rewrite E, Hg | exact Hl].
        -- apply (laid_out_token (c :: g)); try assumption; [|discriminate].
           cbn [forallb]. now rewrite E, Hg.
    + destruct (IH false) as (g & f & fs & rest & Hsp & Hr & Hg & Hnil & Hf & Hb & Hl).
      rewrite Hsp. rewrite (Hnil eq_refl) in Hr.
      exists [], (c :: f), fs, rest. repeat split; try assumption; try reflexivity.
      * now rewrite Hr.
      * cbn [forallb]. now rewrite E, Hf.
Qed.

Lemma tokens_laid_out s :
  laid_out (List.filter (fun p => negb (is_empty p)) (split_runs is_sep false s)) s.
Proof.
  destruct (split_runs_layout s false) as (g & f & fs & rest & -> & Hs & _ & Hnil & Hf & Hb & Hl).
  rewrite (Hnil eq_refl) in Hs. subst s.
  cbn [List.filter app]. destruct f as [|x f]; cbn [is_empty negb].
  - exact Hl.
  - apply (laid_out_token [] (x :: f)); try assumption; [reflexivity | discriminate].
Qed.

Lemma strip_sepfree p : forallb (fun c => negb (is_sep c)) p = true -> strip p = p.
Proof.
  intros H.
  assert (Hsp : forall c, c ∈ p -> isspace c = false).
  { intros c Hc. apply (forallb_elem _ _ _ H) in Hc. unfold is_sep in Hc.
    apply negb_true_iff, orb_false_iff in Hc as [Hc _]. exact Hc. }
  destruct p as [|c r]; [reflexivity|].
  destruct (last (c :: r)) as [d|] eqn:El; [|now apply last_None in El].
  apply (strip_id _ c d); [reflexivity | assumption | apply Hsp; left |].
  apply Hsp. now apply last_Some_elem_of.
Qed.

Lemma split_tokens_filter parts :
  Forall (fun p => forallb (fun c => negb (is_sep c)) p = true) parts ->
  map strip (List.filter (fun p => negb (is_empty (strip p))) parts)
  = List.filter (fun p => negb (is_empty p)) parts.
Proof.
  induction 1 as [|p ps Hp _ IH]; [reflexivity|]. cbn [List.filter].
  rewrite (strip_sepfree p Hp). destruct (negb (is_empty p)); cbn [map].
  - now rewrite (strip_sepfree p Hp), IH.
  - exact IH.
Qed.

Lemma filter_nonempty_idem (l : list str) :
  List.filter (fun p => negb (is_empty p)) (List.filter (fun p => negb (is_empty p)) l)
  = List.filter (fun p => negb (is_empty p)) l.
Proof.
  induction l as [|p ps IH]; [reflexivity|]. cbn [List.filter].
  destruct (negb (is_empty p)) eqn:E; [cbn [List.filter]; now rewrite E, IH | exact IH].
Qed.

Lemma existsb_is_delim s :
  existsb is_delim s = contains " " s || contains "," s || contains TAB s.
Proof.
  induction s as [|c r IH]; [reflexivity|]. cbn [existsb contains]. rewrite IH.
  unfold is_delim, contains.
  rewrite (Ascii.eqb_sym c " "), (Ascii.eqb_sym c ","), (Ascii.eqb_sym c TAB).
  destruct (Ascii.eqb " " c), (Ascii.eqb "," c), (Ascii.eqb TAB c),
    (existsb (Ascii.eqb " ") r), (existsb (Ascii.eqb ",") r), (existsb (Ascii.eqb TAB) r);
    reflexivity.
Qed.

Lemma comment_free_nonempty line :
  is_empty (strip line) = false ->
  startswith_any COMMENT_CHARS (strip line) = false ->
  is_empty (comment_free line) = false.
Proof.
  unfold comment_free. pose proof (strip_head line) as Hh.
  destruct (strip line) as [|c r]; [discriminate|]. intros _ Hc.
  cbn [startswith_any COMMENT_CHARS existsb] in Hc. rewrite orb_false_r in Hc.
  cbn [before]. unfold is_comment. rewrite Hc.
  now rewrite strip_cons_nonspace.
Qed.

(** The tokens of a line lie in it as the design lays them out. *)
Lemma line_tokens_layout line : line_layout line (line_tokens line).
Proof.
  unfold line_layout, line_tokens. cbv zeta.
  destruct (is_empty (strip line)) eqn:Ee; [reflexivity|].
  destruct (startswith_any COMMENT_CHARS (strip line)) eqn:Ec; [reflexivity|].
  cbn [orb]. unfold _split_entries. cbv zeta.
  rewrite (cut_comments_spec (strip line) (strip_idem line)).
  fold (comment_free line). rewrite (comment_free_nonempty line Ee Ec).
  rewrite <- existsb_is_delim.
  destruct (existsb is_delim (comment_free line)).
  - unfold re_split_seps. rewrite split_tokens_filter by apply split_runs_sepfree.
    rewrite filter_nonempty_idem. apply tokens_laid_out.
  - cbn [List.filter]. now rewrite (comment_free_nonempty line Ee Ec).
Qed.

(* ---------- the canonical form of a token ---------- *)
Lemma address_value_printed_v4 ip_int :
  0 <= ip_int < 2 ^ 32 ->
  address_value (V4._string_from_ip_int ip_int) = Some ("inet", ip_int).
Proof. intros H. unfold address_value, ip_address. now rewrite v4_roundtrip. Qed.

Lemma address_value_printed_v6 ip_int scope_id :
  0 <= ip_int < 2 ^ 128 -> scope_ok scope_id ->
  address_value (to_str (IPv6Address ip_int scope_id)) = Some ("inet6", ip_int).
Proof.
  intros Hr Hsc. pose proof (v6_of_string_roundtrip _ _ Hr Hsc) as Hrt.
  unfold address_value, ip_address. now rewrite (v6_text_not_v4 _ _ Hrt), Hrt.
Qed.

Lemma parse_ip_entry_text token :
  parse_ip_entry token
  = if is_empty (comment_free token) then Raise (ValidationError "Empty entry")
    else match validate_cidr (comment_free token) with
         | Raise e => Raise e
         | Ok (network_addr, prefix, family) => Ok (cidr_format network_addr prefix, family)
         end.
Proof.
  unfold parse_ip_entry. cbv zeta.
  change ["#"%char; ";"%char] with COMMENT_CHARS.
  now rewrite (cut_comments_spec (strip token) (strip_idem token)).
Qed.

Lemma canonical_has_canonical_form token entry :
  canonical token = Some entry -> canonical_form token entry.
Proof.
  unfold canonical. rewrite parse_ip_entry_text.
  destruct (is_empty (comment_free token)); [discriminate|].
  destruct (validate_cidr (comment_free token)) as [[[n p] f]|e] eqn:Ev; [|discriminate].
  intros [= <-].
  assert (Hst : strip (comment_free token) = comment_free token) by apply strip_idem.
  destruct (contains "/" (comment_free token)) eqn:Es.
  - destruct (validate_cidr_slash_inv (comment_free token) n p f)
      as (addr_text & mask_text & a & net & Hsp & _ & Hp & Hd & Ha & Hn & Hbits);
      [now rewrite Hst | assumption |].
    rewrite Hst in Hsp.
    exists addr_text, n, f, a, net, p. split; [reflexivity|].
    split; [right; eauto|]. auto.
  - unfold validate_cidr in Ev. cbv zeta in Ev. rewrite Hst, Es in Ev. cbn [negb] in Ev.
    assert (Hfull : forall a i, 0 <= i -> Z.testbit a i = Z.testbit a i && (0 <=? i)).
    { intros a i Hi. replace (0 <=? i) with true by (symmetry; now apply Z.leb_le).
      now rewrite andb_true_r. }
    unfold ip_address in Ev.
    destruct (V4.of_string (comment_free token)) as [ip|] eqn:E4.
    + cbn [version Z.eqb Pos.eqb] in Ev. remember (to_str _) as t eqn:Et.
      injection Ev as <- <- <-. subst t. cbn [to_str].
      pose proof (v4_parse_inv _ _ E4) as [Hr _].
      exists (comment_free token), (V4._string_from_ip_int ip), "inet", ip, ip, 32.
      split; [reflexivity|]. split; [left; auto|].
      split; [unfold address_value, ip_address; now rewrite E4|].
      split; [now apply address_value_printed_v4|].
      split; [change (family_bits "inet") with 32; lia|].
      intros i Hi. change (family_bits "inet" - 32) with 0. now apply Hfull.
    + destruct (V6.of_string (comment_free token)) as [[ip sc]|] eqn:E6; [|discriminate].
      cbn [version Z.eqb Pos.eqb] in Ev. remember (to_str _) as t eqn:Et.
      injection Ev as <- <- <-. subst t.
      pose proof (v6_of_string_inv _ _ _ E6) as (Hr & _ & Hsc).
      exists (comment_free token), (to_str (IPv6Address ip sc)), "inet6", ip, ip, 128.
      split; [reflexivity|]. split; [left; auto|].
      split; [unfold address_value, ip_address; now rewrite E4, E6|].
      split; [now apply address_value_printed_v6|].
      split; [change (family_bits "inet6") with 128; lia|].
      intros i Hi. change (family_bits "inet6" - 128) with 0. now apply Hfull.
Qed.

(* ---------- a text has one layout ---------- *)
Lemma span_unique (P : ascii -> bool) (a : str) : forall a' b b',
  forallb P a = true -> forallb P a' = true ->
  match b with [] => True | c :: _ => P c = false end ->
  match b' with [] => True | c :: _ => P c = false end ->
  a ++ b = a' ++ b' -> a = a' /\ b = b'.
Proof.
  induction a as [|x a IH]; intros a' b b' Ha Ha' Hb Hb' E.
  - destruct a' as [|y a']; [now split|]. exfalso.
    cbn in E. subst b. cbn [forallb] in Ha'. apply andb_true_iff in Ha' as [Hy _].
    congruence.
  - destruct a' as [|y a'].
    + exfalso. cbn in E. subst b'. cbn [forallb] in Ha.
      apply andb_true_iff in Ha as [Hx _]. congruence.
    + cbn in E. injection E as -> E. cbn [forallb] in Ha, Ha'.
      apply andb_true_iff in Ha as [_ Ha]. apply andb_true_iff in Ha' as [_ Ha'].
      destruct (IH a' b b' Ha Ha' Hb Hb' E) as [-> ->]. now split.
Qed.

Lemma head_not_sep (t rest : str) :
  t <> [] -> forallb (fun c => negb (is_sep c)) t = true ->
  match t ++ rest with [] => True | c :: _ => is_sep c = false end.
Proof.
  destruct t as [|c t]; [congruence|]. intros _ H. cbn [forallb] in H.
  apply andb_true_iff in H as [H _]. now apply negb_true_iff in H.
Qed.

Lemma boundary_not_token (rest : str) :
  at_boundary rest ->
  match rest with [] => True | c :: _ => negb (is_sep c) = false end.
Proof. destruct rest as [|c r]; [auto|]. cbn. now intros ->. Qed.

(** [laid_out] leaves no choice: a text has one list of tokens. *)
Lemma laid_out_unique tokens1 text :
  laid_out tokens1 text -> forall tokens2, laid_out tokens2 text -> tokens1 = tokens2.
Proof.
  intros H1. induction H1 as [g Hg | g t ts rest Hg Hne Ht Hb Hrest IH]; intros tokens2 H2.
  - inversion H2 as [g2 Hg2 | g2 t2 ts2 rest2 Hg2 Hne2 Ht2 Hb2 Hrest2 E]; [reflexivity|].
    exfalso. subst. pose proof (head_not_sep t2 rest2 Hne2 Ht2) as Hh.
    rewrite forallb_app in Hg. apply andb_true_iff in Hg as [_ Hg].
    destruct t2 as [|c t2]; [congruence|]. cbn [app forallb] in Hh, Hg.
    apply andb_true_iff in Hg as [Hg _]. congruence.
  - inversion H2 as [g2 Hg2 E | g2 t2 ts2 rest2 Hg2 Hne2 Ht2 Hb2 Hrest2 Etok E].
    + exfalso. subst. pose proof (head_not_sep t rest Hne Ht) as Hh.
      rewrite forallb_app in Hg2. apply andb_true_iff in Hg2 as [_ Hg2].
      destruct t as [|c t]; [congruence|]. cbn [app forallb] in Hh, Hg2.
      apply andb_true_iff in Hg2 as [Hg2 _]. congruence.
    + destruct (span_unique is_sep g2 g (t2 ++ rest2) (t ++ rest) Hg2 Hg
                  (head_not_sep _ _ Hne2 Ht2) (head_not_sep _ _ Hne Ht) E) as [-> E'].
      destruct (span_unique (fun c => negb (is_sep c)) t2 t rest2 rest Ht2 Ht
                  (boundary_not_token _ Hb2) (boundary_not_token _ Hb) E') as [-> ->].
      f_equal. now apply IH.
Qed.

(** C10: [_parse_ip_list] returns for every text. Its entries are the
    canonical forms of the accepted tokens, in the order of the tokens and
    one for each; the tokens are numbered by line from the top, and the line
    numbers of the tokens, and so those of the errors, never decrease.
    Within a line the tokens are the ones the layout of the line gives,
    from left to right: the runs between separators of the comment-free
    text (when it holds a space, a comma or a tab; else that text as one
    token). A canonical form is a network address, a slash and a prefix
    length, the network address being the token's address with the bits
    beyond the prefix cleared. Two lines with four addresses give the four
    entries in the order of the text. *)
Theorem parse_preserves_order content :
  exists entries errors,
    _parse_ip_list content = Ok (entries, errors)
    /\ entries = omap canonical (map snd (tokens_of content))
    /\ length entries
       = length (List.filter (fun nt => bool_decide (is_Some (canonical (snd nt))))
                             (tokens_of content))
    /\ StronglySorted le (map fst (tokens_of content))
    /\ errors = map (fun ne => line_error (fst ne) (snd ne)) (spec_failures content)
    /\ StronglySorted le (map fst (spec_failures content))
    /\ (forall line, line_layout line (line_tokens line))
    /\ (forall token entry, canonical token = Some entry -> canonical_form token entry)
    /\ _parse_ip_list ("1.1.1.1 2.2.2.2, 3.3.3.3" ++ [LF] ++ "4.4.4.4")
       = Ok (["1.1.1.1/32"; "2.2.2.2/32"; "3.3.3.3/32"; "4.4.4.4/32"], []).
Proof.
  exists (spec_entries content), (spec_errors content).
  split; [apply parse_ip_list_refines|].
  split. { unfold spec_entries. symmetry. apply omap_canonical_snd. }
  split. { unfold spec_entries. apply length_omap_filter. }
  split. { apply numbered_tokens_sorted. }
  split; [reflexivity|].
  split. { apply failures_sorted, numbered_tokens_sorted. }
  split; [exact line_tokens_layout|].
  split; [exact canonical_has_canonical_form|].
  vm_compute. reflexivity.
Qed.

Lemma parse_preserves_order_witness :
  canonical_form "10.1.2.3/8" "10.0.0.0/8"
  /\ line_layout " 1.1.1.1, 2.2.2.2 # office" ["1.1.1.1"; "2.2.2.2"].
Proof.
  destruct (parse_preserves_order [])
    as (entries & errors & _ & _ & _ & _ & _ & _ & Hlay & Hcan & _).
  split.
  - apply Hcan. vm_compute. reflexivity.
  - assert (E : line_tokens " 1.1.1.1, 2.2.2.2 # office" = ["1.1.1.1"; "2.2.2.2"])
      by (vm_compute; reflexivity).
    rewrite <- E. apply Hlay.
Defined.

(** White space other than space and tab does not make [_split_entries]
    split: two addresses with a no-break space between them are one token,
    which is refused. *)
Example no_break_space_is_no_separator :
  let nbsp : ascii := "160"%char in
  isspace nbsp = true
  /\ line_tokens ("1.1.1.1" ++ [nbsp] ++ "2.2.2.2") = ["1.1.1.1" ++ [nbsp] ++ "2.2.2.2"]
  /\ (exists errors,
        _parse_ip_list ("1.1.1.1" ++ [nbsp] ++ "2.2.2.2") = Ok ([], errors)
        /\ length errors = 1%nat)
  /\ _parse_ip_list "1.1.1.1 2.2.2.2" = Ok (["1.1.1.1/32"; "2.2.2.2/32"], []).
Proof.
  cbv zeta. split; [reflexivity|]. split; [vm_compute; reflexivity|].
  split; [eexists; split; vm_compute; reflexivity|]. vm_compute. reflexivity.
Qed.

(* ================================================================== *)
(** * The manager: what its calls report and do *)
(* ================================================================== *)






(* ---------- what [create], [destroy] and [exists] tell ---------- *)
Lemma main_list_name n k : main ["list"; n; "-n"] None k = cmd_list_name n k.
Proof. reflexivity. Qed.











Section CleanRun.
Variable ipset_cmd : str.
Variable faults : nat -> fault.
Hypothesis Hclean : forall n, faults n = NoFault.

Lemma run_clean args check input k cs :
  _run ipset_cmd faults args check input (World k cs)
  = (if check && negb (returncode (fst (main args input k)) =? 0)
     then Raise (IPSetError ("ipset command failed: "
                             ++ strip (stderr (fst (main args input k)))))
     else Ok (fst (main args input k)),
     World (snd (main args input k)) (cs ++ [(ipset_cmd :: args, input)])).
Proof using Hclean.
  unfold _run. cbn [calls sets]. rewrite Hclean.
  destruct (main args input k) as [r k']. cbn [fst snd].
  now destruct (check && negb (returncode r =? 0)).
Qed.

Lemma exists_clean n k cs :
  exists_ ipset_cmd faults n (World k cs)
  = (Ok (bool_decide (is_Some (k !! n))), World k (cs ++ [list_call ipset_cmd n])).
Proof using Hclean.
  unfold exists_, bind, ret. rewrite run_clean, main_list_name. unfold cmd_list_name.
  cbn [andb]. destruct (k !! n) eqn:E; cbn [fst snd returncode succeeded failed].
  - rewrite bool_decide_eq_true_2 by eauto. reflexivity.
  - rewrite bool_decide_eq_false_2 by (intros [? ?]; discriminate). reflexivity.
Qed.




Lemma destroy_absent n k cs :
  validate_list_name n = Ok true -> k !! n = None ->
  destroy ipset_cmd faults n (World k cs)
  = (Ok false, World k (cs ++ [list_call ipset_cmd n])).
Proof using Hclean.
  intros Hv Hk. unfold destroy. unfold bind at 1, lift. rewrite Hv.
  unfold bind at 1. rewrite exists_clean, Hk.
  rewrite bool_decide_eq_false_2 by (intros [? ?]; discriminate). reflexivity.
Qed.

End CleanRun.



Section UpdateClean.
Variable ipset_cmd : str.
Variable faults : nat -> fault.
Hypothesis Hclean : forall n, faults n = NoFault.


End UpdateClean.











(* ================================================================== *)
(** * The other validators, the fetcher and the parser on its own output *)
(* ================================================================== *)










(** A scope id made of blanks passes [validate_ipv6] and is refused by
    [validate_cidr], which trims the text first. *)
Example validate_ipv6_blank_scope :
  validate_ipv6 "fe80::1% " = true
  /\ exists msg, validate_cidr "fe80::1% " = Raise (ValidationError msg).
Proof. split; [vm_compute; reflexivity|]. eexists. vm_compute. reflexivity. Qed.


































